(** * SeExpr2 [Expression.h]: a shallow embedding

    The header [src/SeExpr/Expression.h] declares the variable-reference
    classes ([ExprVarRef], [ExprVectorVarRef], [ExprScalarVarRef]) and the
    [Expression] pipeline object.  Member functions whose bodies are inline
    in the header are translated line by line; objects are passed explicitly
    (a [const] method that writes [mutable] members returns the new object).

    Other headers ([Vec3d.h], [ExprEnv.h], the node and interpreter classes)
    and the out-of-line bodies of [Expression.cpp] are not part of the
    header.  Opaque classes and the operations used on them are collected in
    the class [Externals]; out-of-line member functions called by inline
    ones are collected in the class [OutOfLine]. *)

From Stdlib Require Import Ascii.
From stdpp Require Import base strings gmap list.

Local Open Scope Z_scope.

(* ===================================================================== *)
(** * Part I: definitions                                                *)
(* ===================================================================== *)

(** ** C++ [int]

    [int] is a 32-bit two's-complement integer.  Arithmetic is written with
    its wrap-around; a result that leaves [INT_MIN .. INT_MAX] is signed
    overflow, which C++ leaves undefined. *)
Module CInt.

Definition INT_MIN : Z := - 2 ^ 31.
Definition INT_MAX : Z := 2 ^ 31 - 1.

Definition in_range (z : Z) : Prop := INT_MIN ≤ z ≤ INT_MAX.

Definition wrap (z : Z) : Z := (z + 2 ^ 31) mod 2 ^ 32 - 2 ^ 31.

Definition add (a b : Z) : Z := wrap (a + b).
Definition sub (a b : Z) : Z := wrap (a - b).

End CInt.

(** ** Control: [assert], pointer stores, counted loops *)

(** What a call can do besides returning: fail an [assert], or write
    through a pointer past the storage the caller supplied. *)
Inductive Outcome (A : Type) : Type :=
  | Returned (a : A)
  | AssertionFailed
  | OutOfBounds.
Arguments Returned {A} a.
Arguments AssertionFailed {A}.
Arguments OutOfBounds {A}.

#[global] Instance Outcome_ret : MRet Outcome := λ A a, Returned a.

#[global] Instance Outcome_bind : MBind Outcome := λ A B k m,
  match m with
  | Returned a => k a
  | AssertionFailed => AssertionFailed
  | OutOfBounds => OutOfBounds
  end.

(** [assert(c)]: compiled out under [NDEBUG], otherwise aborts when [c] is
    false. *)
Definition assert (NDEBUG : bool) (c : bool) : Outcome unit :=
  if NDEBUG then Returned tt
  else if c then Returned tt else AssertionFailed.

(** [p[k] = v] on caller-supplied storage [p] of [length p] cells. *)
Definition store {A : Type} (k : Z) (v : A) (p : list A) : Outcome (list A) :=
  if bool_decide (0 ≤ k < Z.of_nat (length p))
  then Returned (<[Z.to_nat k := v]> p)
  else OutOfBounds.

(** [for (int k = lo; k < hi; k++) body]. *)
Fixpoint for_steps {S : Type} (n : nat) (k : Z)
    (body : Z → S → Outcome S) (s : S) : Outcome S :=
  match n with
  | O => Returned s
  | Datatypes.S n' => s' ← body k s; for_steps n' (k + 1) body s'
  end.

Definition for_int {S : Type} (lo hi : Z)
    (body : Z → S → Outcome S) (s : S) : Outcome S :=
  for_steps (Z.to_nat (hi - lo)) lo body s.

(** ** Type descriptor *)

Module ExprType.

Inductive Kind : Type :=
    | KError
    | KNumeric (dimension : Z)
    | KString.

Inductive Variability : Type := Constant | Varying.

  (** Modelled from the spec: [ExprType.h] is not under src/.  A type
      descriptor has a kind in {Error, Numeric(dimension), String} and a
      variability in {Constant, Varying}; equality is structural. *)
Record t : Type := mk { kind : Kind; variability : Variability }.

#[global] Instance Kind_eq_dec : EqDecision Kind.
  Proof. solve_decision. Defined.
#[global] Instance Variability_eq_dec : EqDecision Variability.
  Proof. solve_decision. Defined.
#[global] Instance t_eq_dec : EqDecision t.
  Proof. solve_decision. Defined.

  (** Modelled from the spec: [numeric(dimension)] has the given dimension
      and Varying variability; [error()] and [string()] are built by the
      same default constructor.  The header writes them [ExprType().FP(dim)],
      [ExprType().Error()]. *)
Definition numeric (dimension : Z) : t := mk (KNumeric dimension) Varying.
Definition error : t := mk KError Varying.
Definition string : t := mk KString Varying.

  (** Modelled from the spec: [withVariability] returns a copy with the
      variability overridden (the header's [.Varying()]). *)
Definition withVariability (v : Variability) (a : t) : t := mk (kind a) v.

  (** Modelled from the spec: Varying dominates Constant. *)
Definition dominant (v w : Variability) : Variability :=
    match v, w with
    | Constant, Constant => Constant
    | _, _ => Varying
    end.

  (** Modelled from the spec: the kind of a unification.  Error combined
      with anything is Error; Numeric against String is Error; two numeric
      dimensions unify when they are equal or one of them is 1 (scalar
      broadcast), and are an Error otherwise. *)
Definition unifyKind (j k : Kind) : Kind :=
    match j, k with
    | KError, _ | _, KError => KError
    | KString, KString => KString
    | KNumeric d, KNumeric d' =>
        if decide (d = d') then KNumeric d
        else if decide (d = 1) then KNumeric d'
        else if decide (d' = 1) then KNumeric d
        else KError
    | KNumeric _, KString | KString, KNumeric _ => KError
    end.

  (** Modelled from the spec: [unify(a, b)] (body not under src/): the kind
      is [unifyKind] and the variability is the dominant one of the two. *)
Definition unify (a b : t) : t :=
    mk (unifyKind (kind a) (kind b)) (dominant (variability a) (variability b)).

End ExprType.

(** ** Declarations of other headers *)

(** Classes that the header only names ([class ExprNode;] ...), the element
    type [double], and what is used of [Vec3d]: its default constructor and
    [operator[]]. *)
Class Externals : Type := {
  ExprNode : Type;
  ExprVarNode : Type;
  ExprVarEnv : Type;
  ExprFunc : Type;
  Interpreter : Type;
  double : Type;
  Vec3d : Type;
  Vec3d_new : Vec3d;
  Vec3d_index : Vec3d → Z → double
}.

(** ** Variable references *)

Module ExprVarRef.

  (** [class ExprVarRef]: the one data member is [_type]. *)
Record t : Type := mk { _type : ExprType.t }.

  (** The private default constructor: [_type(ExprType().Error().Varying())]. *)
Definition new_default : t :=
    mk (ExprType.withVariability ExprType.Varying ExprType.error).

  (** [ExprVarRef(const ExprType & type) : _type(type)]. *)
Definition new (type : ExprType.t) : t := mk type.

Definition setType (type : ExprType.t) (self : t) : t := mk type.

Definition type (self : t) : ExprType.t := _type self.

End ExprVarRef.

Module ExprVectorVarRef.
Section WithExternals.
Context `{Externals}.

  (** The base sub-object and the slot of the pure virtual
      [eval(const ExprVarNode* node, Vec3d& result)], which a subclass of
      the host fills in: it receives the node pointer (null is [None]) and
      the vector passed by reference, and leaves the vector it wrote. *)
Record t : Type := mk {
    base : ExprVarRef.t;
    eval_node : option ExprVarNode → Vec3d → Vec3d
  }.

  (** [ExprVectorVarRef(int dim = 3) : ExprVarRef(ExprType().FP(dim).Varying())]. *)
Definition new (dim : Z) (impl : option ExprVarNode → Vec3d → Vec3d) : t :=
    mk (ExprVarRef.new
          (ExprType.withVariability ExprType.Varying (ExprType.numeric dim)))
       impl.

Definition default_dim : Z := 3.

Definition isVec (self : t) : bool := true.

  (** [eval(double* result)]:
      [Vec3d ret; eval(0,ret); for(int k=0;k<3;k++) result[k]=ret[k];] *)
Definition eval (self : t) (result : list double) : Outcome (list double) :=
    let ret := Vec3d_new in
    let ret := eval_node self None ret in
    for_int 0 3 (fun k result => store k (Vec3d_index ret k) result) result.

  (** [eval(const char** result){assert(false);}] *)
Definition eval_str (NDEBUG : bool) (self : t) (result : list string)
      : Outcome (list string) :=
    _ ← assert NDEBUG false;
    Returned result.

(** [setType] and [type()], inherited from [ExprVarRef]: they act on the
    base sub-object. *)
Definition setType (type : ExprType.t) (self : t) : t :=
  mk (ExprVarRef.setType type (base self)) (eval_node self).

Definition type (self : t) : ExprType.t := ExprVarRef.type (base self).

End WithExternals.
End ExprVectorVarRef.

Module ExprScalarVarRef.
Section WithExternals.
Context `{Externals}.

Record t : Type := mk {
    base : ExprVarRef.t;
    eval_node : option ExprVarNode → Vec3d → Vec3d
  }.

  (** [ExprScalarVarRef() : ExprVarRef(ExprType().FP(1).Varying())]. *)
Definition new (impl : option ExprVarNode → Vec3d → Vec3d) : t :=
    mk (ExprVarRef.new
          (ExprType.withVariability ExprType.Varying (ExprType.numeric 1)))
       impl.

Definition isVec (self : t) : bool := false.

  (** [eval(double* result)]:
      [Vec3d ret; eval(0,ret); for(int k=0;k<1;k++) result[k]=ret[k];] *)
Definition eval (self : t) (result : list double) : Outcome (list double) :=
    let ret := Vec3d_new in
    let ret := eval_node self None ret in
    for_int 0 1 (fun k result => store k (Vec3d_index ret k) result) result.

  (** [eval(const char** result){assert(false);}] *)
Definition eval_str (NDEBUG : bool) (self : t) (result : list string)
      : Outcome (list string) :=
    _ ← assert NDEBUG false;
    Returned result.

(** [setType] and [type()], inherited from [ExprVarRef]: they act on the
    base sub-object. *)
Definition setType (type : ExprType.t) (self : t) : t :=
  mk (ExprVarRef.setType type (base self)) (eval_node self).

Definition type (self : t) : ExprType.t := ExprVarRef.type (base self).

End WithExternals.
End ExprScalarVarRef.


(** ** A caller of the two [eval] overloads *)

(** The overload a caller picks: the numeric one, [eval(double* result)], is
    the one appropriate to a numeric-backed reference;
    [eval(const char** result)] is the string one. *)
Inductive Accessor : Type := EvalNumeric | EvalString.

Section Caller.
Context `{Externals}.

(** The storage the caller supplies: numeric cells and string cells. *)
Record Storage : Type := mkStorage {
  fp : list double;
  str : list string
}.

(** One call through the virtual interface of [ExprVarRef] ([evalFP] and
    [evalStr] stand for the two overriders of the dynamic type), and a run
    of calls that stops at the first one that does not return. *)
Definition call (evalFP : list double → Outcome (list double))
    (evalStr : list string → Outcome (list string))
    (a : Accessor) (st : Storage) : Outcome Storage :=
  match a with
  | EvalNumeric => cells ← evalFP (fp st); Returned (mkStorage cells (str st))
  | EvalString => cells ← evalStr (str st); Returned (mkStorage (fp st) cells)
  end.

Fixpoint calls (evalFP : list double → Outcome (list double))
    (evalStr : list string → Outcome (list string))
    (accs : list Accessor) (st : Storage) : Outcome Storage :=
  match accs with
  | [] => Returned st
  | a :: accs' => st' ← call evalFP evalStr a st; calls evalFP evalStr accs' st'
  end.

End Caller.

(** ** Stream output of an unsigned integer in base 16 *)

(** [o << std::setbase(16) << v] for a [uint64_t v]: the digits of [v] in
    base 16, most significant first, in lower case, with no prefix and no
    padding; zero prints as one digit. *)
Module Hex.

Definition digit (d : Z) : Ascii.ascii :=
  match d with
  | 0 => "0" | 1 => "1" | 2 => "2" | 3 => "3" | 4 => "4" | 5 => "5"
  | 6 => "6" | 7 => "7" | 8 => "8" | 9 => "9" | 10 => "a" | 11 => "b"
  | 12 => "c" | 13 => "d" | 14 => "e" | _ => "f"
  end%char.

(** Digits are produced from the least significant one and stored in front
    of those already there; a 64-bit value has at most 16 of them. *)
Fixpoint go (fuel : nat) (v : Z) (acc : string) : string :=
  match fuel with
  | O => acc
  | S fuel' =>
      let acc' := String (digit (v mod 16)) acc in
      if decide (v / 16 = 0) then acc' else go fuel' (v / 16) acc'
  end.

(** The conversion [(uint64_t)] reduces modulo [2^64]. *)
Definition uint64 (v : Z) : string := go 16 (v mod 2 ^ 64) "".

(** Reading back: the value of one digit and of a digit string. *)
Definition value (c : Ascii.ascii) : Z :=
  match c with
  | "0" => 0 | "1" => 1 | "2" => 2 | "3" => 3 | "4" => 4 | "5" => 5
  | "6" => 6 | "7" => 7 | "8" => 8 | "9" => 9 | "a" => 10 | "b" => 11
  | "c" => 12 | "d" => 13 | "e" => 14 | "f" => 15 | _ => 0
  end%char.

Fixpoint read (s : string) : Z :=
  match s with
  | EmptyString => 0
  | String c s' => value c * 16 ^ Z.of_nat (String.length s') + read s'
  end.



End Hex.

(** ** The expression object *)

(** [enum EvaluationStrategy {UseInterpreter, UseLLVM};] and the default,
    which the macro [SEEXPR_ENABLE_LLVM] selects. *)
Inductive EvaluationStrategy : Type := UseInterpreter | UseLLVM.

Definition defaultEvaluationStrategy (SEEXPR_ENABLE_LLVM : bool)
    : EvaluationStrategy :=
  if SEEXPR_ENABLE_LLVM then UseLLVM else UseInterpreter.

Module Expression.

(** [struct Error]: text of the error and its start and end offsets in the
    expression string; the constructor copies its three arguments. *)
Record Error : Type := mkError {
  error : string;
  startPos : Z;
  endPos : Z
}.

#[global] Instance Error_eq_dec : EqDecision Error.
Proof. solve_decision. Defined.

Section WithExternals.
Context `{Externals}.

(** The data members, in the order of the header.  Pointers are [option]
    (null is [None]); the members under [#ifdef SEEXPR_ENABLE_LLVM] are not
    compiled in the default configuration and are left out. *)
Record t : Type := mk {
  _wantVec : bool;
  _returnType : ExprType.t;
  _expression : string;
  _evaluationStrategy : EvaluationStrategy;
  _desiredReturnType : ExprType.t;
  _varEnv : option ExprVarEnv;
  _parseTree : option ExprNode;
  _isValid : bool;
  _parsed : bool;
  _prepped : bool;
  _parseError : string;
  _errors : list Error;
  _comments : list (Z * Z);
  _vars : gset string;
  _funcs : gset string;
  _threadUnsafeFunctionCalls : list string;
  _interpreter : option Interpreter;
  _returnSlot : Z
}.

(** Assignment to one [mutable] member. *)
Definition set_errors (v : list Error) (e : t) : t :=
  mk (_wantVec e) (_returnType e) (_expression e) (_evaluationStrategy e)
     (_desiredReturnType e) (_varEnv e) (_parseTree e) (_isValid e)
     (_parsed e) (_prepped e) (_parseError e) v (_comments e) (_vars e)
     (_funcs e) (_threadUnsafeFunctionCalls e) (_interpreter e) (_returnSlot e).

Definition set_comments (v : list (Z * Z)) (e : t) : t :=
  mk (_wantVec e) (_returnType e) (_expression e) (_evaluationStrategy e)
     (_desiredReturnType e) (_varEnv e) (_parseTree e) (_isValid e)
     (_parsed e) (_prepped e) (_parseError e) (_errors e) v (_vars e)
     (_funcs e) (_threadUnsafeFunctionCalls e) (_interpreter e) (_returnSlot e).

Definition set_vars (v : gset string) (e : t) : t :=
  mk (_wantVec e) (_returnType e) (_expression e) (_evaluationStrategy e)
     (_desiredReturnType e) (_varEnv e) (_parseTree e) (_isValid e)
     (_parsed e) (_prepped e) (_parseError e) (_errors e) (_comments e) v
     (_funcs e) (_threadUnsafeFunctionCalls e) (_interpreter e) (_returnSlot e).

Definition set_funcs (v : gset string) (e : t) : t :=
  mk (_wantVec e) (_returnType e) (_expression e) (_evaluationStrategy e)
     (_desiredReturnType e) (_varEnv e) (_parseTree e) (_isValid e)
     (_parsed e) (_prepped e) (_parseError e) (_errors e) (_comments e)
     (_vars e) v (_threadUnsafeFunctionCalls e) (_interpreter e) (_returnSlot e).

Definition set_threadUnsafeFunctionCalls (v : list string) (e : t) : t :=
  mk (_wantVec e) (_returnType e) (_expression e) (_evaluationStrategy e)
     (_desiredReturnType e) (_varEnv e) (_parseTree e) (_isValid e)
     (_parsed e) (_prepped e) (_parseError e) (_errors e) (_comments e)
     (_vars e) (_funcs e) v (_interpreter e) (_returnSlot e).

(** *** Inline accessors *)

(** [const std::string& getExpr() const { return _expression; }] *)
Definition getExpr (e : t) : string := _expression e.

(** [const std::string& parseError() const { return _parseError; }] *)
Definition parseError (e : t) : string := _parseError e.

(** [getErrors() const {return _errors;}] *)
Definition getErrors (e : t) : list Error := _errors e.

(** [getComments() const {return _comments;}] *)
Definition getComments (e : t) : list (Z * Z) := _comments e.

(** [isThreadSafe() const {return _threadUnsafeFunctionCalls.size()==0;}] *)
Definition isThreadSafe (e : t) : bool :=
  Nat.eqb (length (_threadUnsafeFunctionCalls e)) 0.

(** [getThreadUnsafeFunctionCalls() const {return _threadUnsafeFunctionCalls;}] *)
Definition getThreadUnsafeFunctionCalls (e : t) : list string :=
  _threadUnsafeFunctionCalls e.

(** [bool wantVec() const { return _wantVec; }] *)
Definition wantVec (e : t) : bool := _wantVec e.

(** The base-class resolvers: [{return 0;}]. *)
Definition resolveVar (name : string) (e : t)
    : option (ExprVarRef.t) := None.
Definition resolveFunc (name : string) (e : t) : option ExprFunc := None.

(** *** Inline recorders *)

(** [setThreadUnsafe(functionName)]:
    [_threadUnsafeFunctionCalls.push_back(functionName);] *)
Definition setThreadUnsafe (functionName : string) (e : t) : t :=
  set_threadUnsafeFunctionCalls
    (_threadUnsafeFunctionCalls e ++ [functionName]) e.

(** [addError(error,startPos,endPos)]:
    [_errors.push_back(Error(error,startPos,endPos));] *)
Definition addError (error : string) (startPos endPos : Z) (e : t) : t :=
  set_errors (_errors e ++ [mkError error startPos endPos]) e.

(** [addComment(pos,length)]:
    [_comments.push_back(std::pair<int,int>(pos,length+pos-1));] *)
Definition addComment (pos length : Z) (e : t) : t :=
  set_comments (_comments e ++ [(pos, CInt.sub (CInt.add length pos) 1)]) e.

(** [addVar(const char* n) const { _vars.insert(n); }] *)
Definition addVar (n : string) (e : t) : t := set_vars ({[n]} ∪ _vars e) e.

(** [addFunc(const char* n) const { _funcs.insert(n); }] *)
Definition addFunc (n : string) (e : t) : t := set_funcs ({[n]} ∪ _funcs e) e.

(** The calls by which the parser and the parse-tree nodes record their
    findings in the expression, and a run of them in program order. *)
Inductive Recording : Type :=
  | RecError (error : string) (startPos endPos : Z)
  | RecComment (pos length : Z)
  | RecThreadUnsafe (functionName : string)
  | RecVar (n : string)
  | RecFunc (n : string).

Definition record (e : t) (r : Recording) : t :=
  match r with
  | RecError error startPos endPos => addError error startPos endPos e
  | RecComment pos length => addComment pos length e
  | RecThreadUnsafe functionName => setThreadUnsafe functionName e
  | RecVar n => addVar n e
  | RecFunc n => addFunc n e
  end.

Definition recordAll (rs : list Recording) (e : t) : t := fold_left record rs e.

(** The errors, in order, among a run of recordings. *)
Definition errorsOf (rs : list Recording) : list Error :=
  omap (λ r, match r with
             | RecError error startPos endPos =>
                 Some (mkError error startPos endPos)
             | _ => None
             end) rs.

(** The comment spans, in order, that a run of recordings appends. *)
Definition commentsOf (rs : list Recording) : list (Z * Z) :=
  omap (λ r, match r with
             | RecComment pos length =>
                 Some (pos, CInt.sub (CInt.add length pos) 1)
             | _ => None
             end) rs.

(** The thread-unsafe names, in order, among a run of recordings. *)
Definition threadUnsafeOf (rs : list Recording) : list string :=
  omap (λ r, match r with
             | RecThreadUnsafe functionName => Some functionName
             | _ => None
             end) rs.

(** [setThreadUnsafe] called once per name of [names], in order. *)
Definition setThreadUnsafe_each (names : list string) (e : t) : t :=
  fold_left (λ e name, setThreadUnsafe name e) names e.

(** [addComment] called once per [(pos, length)] of [spans], in order. *)
Definition addComment_each (spans : list (Z * Z)) (e : t) : t :=
  fold_left (λ e pl, addComment pl.1 pl.2 e) spans e.

(** [length + pos - 1] is evaluated in [int] without signed overflow. *)
Definition no_overflow (pl : Z * Z) : Prop :=
  CInt.in_range pl.1 ∧ CInt.in_range pl.2 ∧
  CInt.in_range (pl.2 + pl.1) ∧ CInt.in_range (pl.2 + pl.1 - 1).

(** The span with inclusive end that a comment at [pos] of [length]
    characters covers. *)
Definition inclusive_span (pl : Z * Z) : Z * Z := (pl.1, pl.1 + pl.2 - 1).

(** The data member that a recording writes. *)
Inductive Member : Type := MErrors | MComments | MThreadUnsafe | MVars | MFuncs.

Definition written (r : Recording) : Member :=
  match r with
  | RecError _ _ _ => MErrors
  | RecComment _ _ => MComments
  | RecThreadUnsafe _ => MThreadUnsafe
  | RecVar _ => MVars
  | RecFunc _ => MFuncs
  end.

(** [getUniqueName()] (under [SEEXPR_ENABLE_LLVM]):
    [o << std::setbase(16) << (uint64_t)(this); return ("_" + o.str());]
    where [this] is the address of the object. *)
Definition getUniqueName (this : Z) : string := "_" +:+ Hex.uint64 this.

(** *** Staging *)

(** Member functions declared in the header whose bodies are out of line:
    [parse()] and [prep()], called by the inline guards below, and what
    [syntaxOK()], [isConstant()] and [isVec()] answer once their stage has
    run. *)
Class OutOfLine : Type := {
  parse : t → t;
  prep : t → t;
  syntaxOK_answer : t → bool;
  isConstant_answer : t → bool;
  isVec_answer : t → bool
}.

Context `{OutOfLine}.

(** [void parseIfNeeded() const { if (!_parsed) parse(); }] *)
Definition parseIfNeeded (e : t) : t := if negb (_parsed e) then parse e else e.

(** [void prepIfNeeded() const { if (!_prepped) prep(); }] *)
Definition prepIfNeeded (e : t) : t := if negb (_prepped e) then prep e else e.

(** [bool isValid() const { prepIfNeeded(); return _isValid; }] *)
Definition isValid (e : t) : t * bool :=
  let e := prepIfNeeded e in (e, _isValid e).

(** [isValid()] called [n] times in a row: the final object and the
    answers in call order. *)
Fixpoint isValid_times (n : nat) (e : t) : t * list bool :=
  match n with
  | O => (e, [])
  | S n' => let '(e1, b) := isValid e in
            let '(e2, bs) := isValid_times n' e1 in (e2, b :: bs)
  end.

(** What the inline guards rely on from the out-of-line bodies: the header
    documents [_parsed, _prepped] as "Flag set once expr is
    parsed/prepped". *)
Definition parse_sets_flag : Prop := ∀ e, _parsed (parse e) = true.
Definition prep_sets_flag : Prop := ∀ e, _prepped (prep e) = true.

(** Modelled from the spec: the body of [setExpr] is not under src/.  It
    unconditionally resets to Empty whatever the current state, discarding
    the cached tree, errors, comments, usage sets and thread-safety list
    (with the validity flag and the cached parse error), and stores the new
    text; members the spec does not name are kept. *)
Definition setExpr (text : string) (e : t) : t :=
  mk (_wantVec e) (_returnType e) text (_evaluationStrategy e)
     (_desiredReturnType e) (_varEnv e) None false false false "" [] [] ∅ ∅ []
     (_interpreter e) (_returnSlot e).

(** Modelled from the spec: the bodies of [syntaxOK] and [isConstant] are
    not under src/; both trigger the Empty to Parsed transition lazily. *)
Definition syntaxOK (e : t) : t * bool :=
  let e := parseIfNeeded e in (e, syntaxOK_answer e).
Definition isConstant (e : t) : t * bool :=
  let e := parseIfNeeded e in (e, isConstant_answer e).

(** Modelled from the spec: the bodies of [usesVar] and [usesFunc] are not
    under src/; the expression is parsed if needed, no binding is required,
    and the answer is membership in the set of used variables (functions). *)
Definition usesVar (name : string) (e : t) : t * bool :=
  let e := parseIfNeeded e in (e, bool_decide (name ∈ _vars e)).
Definition usesFunc (name : string) (e : t) : t * bool :=
  let e := parseIfNeeded e in (e, bool_decide (name ∈ _funcs e)).

(** Modelled from the spec: the bodies of [isVec] and [returnType] are not
    under src/; both trigger the Parsed to Prepared transition lazily, and
    [returnType] answers the final inferred return type. *)
Definition isVec (e : t) : t * bool :=
  let e := prepIfNeeded e in (e, isVec_answer e).
Definition returnType (e : t) : t * ExprType.t :=
  let e := prepIfNeeded e in (e, _returnType e).

(** *** The public query set *)

Inductive Query : Type :=
  | QsyntaxOK | QisValid | QisConstant | QisVec
  | QusesVar (name : string) | QusesFunc (name : string)
  | QisThreadSafe | QreturnType | QgetErrors | QgetComments
  | QgetThreadUnsafeFunctionCalls.

Inductive Answer : Type :=
  | ABool (b : bool)
  | AType (ty : ExprType.t)
  | AErrors (errs : list Error)
  | AComments (spans : list (Z * Z))
  | ANames (names : list string).

(** One call of a query: the object it leaves and what it answers. *)
Definition ask (q : Query) (e : t) : t * Answer :=
  match q with
  | QsyntaxOK => prod_map id ABool (syntaxOK e)
  | QisValid => prod_map id ABool (isValid e)
  | QisConstant => prod_map id ABool (isConstant e)
  | QisVec => prod_map id ABool (isVec e)
  | QusesVar name => prod_map id ABool (usesVar name e)
  | QusesFunc name => prod_map id ABool (usesFunc name e)
  | QisThreadSafe => (e, ABool (isThreadSafe e))
  | QreturnType => prod_map id AType (returnType e)
  | QgetErrors => (e, AErrors (getErrors e))
  | QgetComments => (e, AComments (getComments e))
  | QgetThreadUnsafeFunctionCalls => (e, ANames (getThreadUnsafeFunctionCalls e))
  end.

(** The reading of "every query triggers the staging it needs": asked on an
    object that is not parsed yet, the query leaves it parsed. *)
Definition triggers_staging (q : Query) : Prop :=
  ∀ e, _parsed e = false → _parsed (ask q e).1 = true.

(** The same out-of-line bodies with another [prep()]. *)
Definition with_prep (prep' : t → t) : OutOfLine := {|
  parse := parse;
  prep := prep';
  syntaxOK_answer := syntaxOK_answer;
  isConstant_answer := isConstant_answer;
  isVec_answer := isVec_answer
|}.

End WithExternals.
End Expression.


(** ** The native evaluation context *)

(** [template<class T> class LLVMEvaluationContext], nested in [Expression]
    under [SEEXPR_ENABLE_LLVM]. *)
Module LLVMEvaluationContext.

(** What a member call can do besides returning: fail its [assert], or
    leave the behaviour undefined (a call through a null function pointer,
    a single-object [delete] of array storage, an array [new] of negative
    length). *)
Inductive Effect (A : Type) : Type :=
  | Done (a : A)
  | AssertFailed
  | Undefined.
Arguments Done {A} a.
Arguments AssertFailed {A}.
Arguments Undefined {A}.

#[global] Instance Effect_ret : MRet Effect := λ A a, Done a.

#[global] Instance Effect_bind : MBind Effect := λ A B k m,
  match m with
  | Done a => k a
  | AssertFailed => AssertFailed
  | Undefined => Undefined
  end.

Section WithT.
Context {T : Type}.

(** What cell [i] of fresh array storage holds before it is written. *)
Context (indeterminate : nat → T).

(** The typedef [FunctionPtr], pointer to a function [void f(T* cells)]: a
    native function, which rewrites the cells it is pointed to. *)
Definition FunctionPtr : Type := list T → list T.

(** The two data members; a null pointer is [None]. *)
Record t : Type := mk {
  functionPtr : option FunctionPtr;
  resultData : option (list T)
}.

(** [LLVMEvaluationContext() : functionPtr(0), resultData(0)] *)
Definition new : t := mk None None.

(** [delete p;] where [p] is null or points to storage of [new T[dim]],
    the only storage [resultData] ever holds: a no-op on null, undefined on
    array storage. *)
Definition delete (p : option (list T)) : Effect unit :=
  match p with
  | None => Done tt
  | Some _ => Undefined
  end.

(** [new T[dim]]: [dim] cells of indeterminate content. *)
Definition new_array (dim : Z) : Effect (list T) :=
  if decide (0 ≤ dim) then Done (indeterminate <$> seq 0 (Z.to_nat dim))
  else Undefined.

(** [reset()]:
    [delete resultData; resultData=0; functionPtr=0; resultData=0;] *)
Definition reset (self : t) : Effect t :=
  _ ← delete (resultData self);
  let self := mk (functionPtr self) None in
  let self := mk None (resultData self) in
  let self := mk (functionPtr self) None in
  Done self.

(** [init(void* fp,int dim)]:
    [reset(); functionPtr=reinterpret_cast<FunctionPtr>(fp);
     resultData=new T[dim];] *)
Definition init (fp : option FunctionPtr) (dim : Z) (self : t) : Effect t :=
  self ← reset self;
  let self := mk fp (resultData self) in
  cells ← new_array dim;
  Done (mk (functionPtr self) (Some cells)).

(** [operator()()]:
    [assert(functionPtr && resultData); functionPtr(resultData);
     return resultData;]  The answer is the content of [resultData] at the
    return.  A call of a non-null function on a null [resultData] (a state
    that no member establishes) is taken as undefined. *)
Definition call (NDEBUG : bool) (self : t) : Effect (t * list T) :=
  _ ← (if NDEBUG then Done tt
       else if bool_decide (is_Some (functionPtr self))
               && bool_decide (is_Some (resultData self))
            then Done tt else AssertFailed);
  match functionPtr self, resultData self with
  | Some f, Some cells =>
      let cells := f cells in Done (mk (Some f) (Some cells), cells)
  | _, _ => Undefined
  end.

(** [n] evaluations in a row: the final context and the answers in call
    order. *)
Fixpoint call_times (NDEBUG : bool) (n : nat) (self : t)
    : Effect (t * list (list T)) :=
  match n with
  | O => Done (self, [])
  | S n' =>
      '(self, cells) ← call NDEBUG self;
      '(self, answers) ← call_times NDEBUG n' self;
      Done (self, cells :: answers)
  end.

End WithT.

Arguments t : clear implicits.
Arguments FunctionPtr : clear implicits.

End LLVMEvaluationContext.

(** ** Instances used in the examples *)

(** Opaque classes as [unit], [double] as an integer, [Vec3d] as a triple. *)
Definition demo_externals : Externals := {|
  ExprNode := unit;
  ExprVarNode := unit;
  ExprVarEnv := unit;
  ExprFunc := unit;
  Interpreter := unit;
  double := Z;
  Vec3d := Z * Z * Z;
  Vec3d_new := (0, 0, 0);
  Vec3d_index := λ v k,
    if decide (k = 0) then v.1.1 else if decide (k = 1) then v.1.2 else v.2
|}.

(** A stand-in parser: it sets [_parsed]; the text ["1 +"] is a syntax
    error (one [Error], null tree), any other text yields a tree. *)
Definition demo_parse (e : @Expression.t demo_externals)
    : @Expression.t demo_externals :=
  let bad := String.eqb (Expression._expression e) "1 +" in
  let e1 :=
    Expression.mk (Expression._wantVec e) (Expression._returnType e)
      (Expression._expression e) (Expression._evaluationStrategy e)
      (Expression._desiredReturnType e) (Expression._varEnv e)
      (if bad then None else Some tt) (Expression._isValid e)
      true (Expression._prepped e)
      (if bad then "syntax error" else "")
      (Expression._errors e) (Expression._comments e) (Expression._vars e)
      (Expression._funcs e) (Expression._threadUnsafeFunctionCalls e)
      (Expression._interpreter e) (Expression._returnSlot e) in
  if bad then Expression.addError "syntax error" 3 3 e1 else e1.

(** A stand-in binder: it sets [_prepped], parses if needed, and declares
    the expression valid when there is a tree. *)
Definition demo_prep (e : @Expression.t demo_externals)
    : @Expression.t demo_externals :=
  let e1 := if negb (Expression._parsed e) then demo_parse e else e in
  Expression.mk (Expression._wantVec e1) (Expression._returnType e1)
    (Expression._expression e1) (Expression._evaluationStrategy e1)
    (Expression._desiredReturnType e1) (Expression._varEnv e1)
    (Expression._parseTree e1)
    (bool_decide (is_Some (Expression._parseTree e1)))
    (Expression._parsed e1) true
    (Expression._parseError e1)
    (Expression._errors e1) (Expression._comments e1) (Expression._vars e1)
    (Expression._funcs e1) (Expression._threadUnsafeFunctionCalls e1)
    (Expression._interpreter e1) (Expression._returnSlot e1).

Definition demo_outofline : @Expression.OutOfLine demo_externals := {|
  Expression.parse := demo_parse;
  Expression.prep := demo_prep;
  Expression.syntaxOK_answer := λ e, bool_decide (is_Some (Expression._parseTree e));
  Expression.isConstant_answer := λ e, bool_decide (Expression._vars e = ∅);
  Expression.isVec_answer := λ e, Expression._wantVec e
|}.

(** An expression object on which nothing has run yet, holding [text]. *)
Definition demo_expression (text : string) : @Expression.t demo_externals :=
  Expression.mk true (ExprType.numeric 3) text UseInterpreter
    (ExprType.numeric 3) None None false false false "" [] [] ∅ ∅ [] None 0.

(** A vector reference whose host value is [(10, 20, 30)], and a scalar
    reference whose host value is [(7, 8, 9)]. *)
Definition demo_vector (dim : Z) : @ExprVectorVarRef.t demo_externals :=
  @ExprVectorVarRef.new demo_externals dim (λ _ _, (10, 20, 30)).

Definition demo_scalar : @ExprScalarVarRef.t demo_externals :=
  @ExprScalarVarRef.new demo_externals (λ _ _, (7, 8, 9)).

(** ** Proof steps *)

(** Equality of two unions of finite sets, by membership. *)
Ltac union_eq :=
  apply set_eq; intros ?; rewrite !elem_of_union; tauto.

(** The sixteen cases of a digit of base 16. *)
Ltac hex_cases d :=
  let Hd := fresh "Hd" in
  assert (d = 0 ∨ d = 1 ∨ d = 2 ∨ d = 3 ∨ d = 4 ∨ d = 5 ∨ d = 6 ∨ d = 7
          ∨ d = 8 ∨ d = 9 ∨ d = 10 ∨ d = 11 ∨ d = 12 ∨ d = 13 ∨ d = 14
          ∨ d = 15) as Hd by lia;
  destruct_or! Hd; rewrite Hd.

(* ===================================================================== *)
(** * Part II: theorems                                                  *)
(* ===================================================================== *)

(** ** [int] arithmetic *)

Lemma CInt_wrap_in_range (z : Z) : CInt.in_range z → CInt.wrap z = z.
Proof.
  unfold CInt.in_range, CInt.INT_MIN, CInt.INT_MAX, CInt.wrap. intros Hz.
  rewrite Z.mod_small; lia.
Qed.

Lemma CInt_span_end (pl : Z * Z) :
  Expression.no_overflow pl →
  CInt.sub (CInt.add pl.2 pl.1) 1 = pl.1 + pl.2 - 1.
Proof.
  intros (_ & _ & Hadd & Hsub). unfold CInt.sub, CInt.add.
  rewrite (CInt_wrap_in_range _ Hadd), (CInt_wrap_in_range _ Hsub). lia.
Qed.

(** ** Recorders *)

Section Recorders.
Context `{Externals}.
Implicit Types (e : Expression.t) (rs : list Expression.Recording).

Lemma getErrors_recordAll rs e :
  Expression.getErrors (Expression.recordAll rs e)
  = Expression.getErrors e ++ Expression.errorsOf rs.
Proof.
  revert e. induction rs as [|r rs IH]; intros e; simpl.
  - by rewrite app_nil_r.
  - unfold Expression.recordAll in *. simpl. rewrite IH.
    destruct r; simpl; try done.
    unfold Expression.getErrors. simpl. by rewrite <- app_assoc.
Qed.

Lemma getComments_recordAll rs e :
  Expression.getComments (Expression.recordAll rs e)
  = Expression.getComments e ++ Expression.commentsOf rs.
Proof.
  revert e. induction rs as [|r rs IH]; intros e; simpl.
  - by rewrite app_nil_r.
  - unfold Expression.recordAll in *. simpl. rewrite IH.
    destruct r; simpl; try done.
    unfold Expression.getComments. simpl. by rewrite <- app_assoc.
Qed.

Lemma getThreadUnsafeFunctionCalls_recordAll rs e :
  Expression.getThreadUnsafeFunctionCalls (Expression.recordAll rs e)
  = Expression.getThreadUnsafeFunctionCalls e ++ Expression.threadUnsafeOf rs.
Proof.
  revert e. induction rs as [|r rs IH]; intros e; simpl.
  - by rewrite app_nil_r.
  - unfold Expression.recordAll in *. simpl. rewrite IH.
    destruct r; simpl; try done.
    unfold Expression.getThreadUnsafeFunctionCalls. simpl.
    by rewrite <- app_assoc.
Qed.

Lemma getThreadUnsafeFunctionCalls_each (names : list string) e :
  Expression.getThreadUnsafeFunctionCalls
    (Expression.setThreadUnsafe_each names e)
  = Expression.getThreadUnsafeFunctionCalls e ++ names.
Proof.
  revert e. induction names as [|n names IH]; intros e.
  - by rewrite app_nil_r.
  - unfold Expression.setThreadUnsafe_each in *. simpl. rewrite IH.
    unfold Expression.getThreadUnsafeFunctionCalls. simpl.
    by rewrite <- app_assoc.
Qed.

Lemma isThreadSafe_nil e :
  Expression.isThreadSafe e = true
  ↔ Expression.getThreadUnsafeFunctionCalls e = [].
Proof.
  unfold Expression.isThreadSafe, Expression.getThreadUnsafeFunctionCalls.
  destruct (Expression._threadUnsafeFunctionCalls e); simpl; split; done.
Qed.

Lemma getComments_each (spans : list (Z * Z)) e :
  Forall Expression.no_overflow spans →
  Expression.getComments (Expression.addComment_each spans e)
  = Expression.getComments e ++ (Expression.inclusive_span <$> spans).
Proof.
  intros Hok. revert e.
  induction Hok as [|pl spans Hpl _ IH]; intros e.
  - by rewrite app_nil_r.
  - unfold Expression.addComment_each in *. simpl. rewrite IH.
    unfold Expression.getComments, Expression.addComment. simpl.
    rewrite (CInt_span_end _ Hpl). by rewrite <- app_assoc.
Qed.

(** C1.  [isThreadSafe()] answers true exactly when the list of
    thread-unsafe calls is empty.  One [setThreadUnsafe(name)] appends one
    entry at the end.  After one call per name of [names] (duplicates
    included, in call order) the list is the old one followed by [names]:
    from an empty list it has length [N], and whenever [N > 0]
    [isThreadSafe()] answers false. *)
Theorem C1_thread_unsafe_calls e (names : list string) :
  let e' := Expression.setThreadUnsafe_each names e in
  (Expression.isThreadSafe e = true
     ↔ Expression.getThreadUnsafeFunctionCalls e = [])
  ∧ (∀ name,
       Expression.getThreadUnsafeFunctionCalls
         (Expression.setThreadUnsafe name e)
       = Expression.getThreadUnsafeFunctionCalls e ++ [name])
  ∧ Expression.getThreadUnsafeFunctionCalls e'
    = Expression.getThreadUnsafeFunctionCalls e ++ names
  ∧ (Expression.getThreadUnsafeFunctionCalls e = [] →
       Expression.getThreadUnsafeFunctionCalls e' = names
       ∧ length (Expression.getThreadUnsafeFunctionCalls e') = length names)
  ∧ ((0 < length names)%nat → Expression.isThreadSafe e' = false).
Proof.
  intros e'. subst e'. split_and!.
  - apply isThreadSafe_nil.
  - done.
  - apply getThreadUnsafeFunctionCalls_each.
  - intros Hnil. rewrite getThreadUnsafeFunctionCalls_each, Hnil. done.
  - intros Hpos. apply not_true_is_false. intros Hsafe.
    apply isThreadSafe_nil in Hsafe.
    rewrite getThreadUnsafeFunctionCalls_each in Hsafe.
    apply app_eq_nil in Hsafe as [_ ->]. simpl in Hpos. lia.
Qed.

(** C5.  Errors accumulate and are never deduplicated: [addError(message,
    startPos, endPos)] appends one [Error] holding exactly that message and
    those offsets at the end of the list, also when an equal entry is
    already there; the entries present before are kept, unchanged and in
    place; no other list or set of the object changes; and [getErrors()]
    returns the entries of a run of recordings in insertion order. *)
Theorem C5_addError_appends e (message : string) (startPos endPos : Z) :
  let e' := Expression.addError message startPos endPos e in
  let entry := Expression.mkError message startPos endPos in
  Expression.getErrors e' = Expression.getErrors e ++ [entry]
  ∧ (Expression.error entry = message
     ∧ Expression.startPos entry = startPos
     ∧ Expression.endPos entry = endPos)
  ∧ length (Expression.getErrors e') = S (length (Expression.getErrors e))
  ∧ take (length (Expression.getErrors e)) (Expression.getErrors e')
    = Expression.getErrors e
  ∧ Expression.getErrors (Expression.addError message startPos endPos e')
    = Expression.getErrors e ++ [entry; entry]
  ∧ (Expression.getComments e' = Expression.getComments e
     ∧ Expression.getThreadUnsafeFunctionCalls e'
       = Expression.getThreadUnsafeFunctionCalls e
     ∧ Expression._vars e' = Expression._vars e
     ∧ Expression._funcs e' = Expression._funcs e)
  ∧ (∀ rs, Expression.getErrors (Expression.recordAll rs e)
           = Expression.getErrors e ++ Expression.errorsOf rs).
Proof.
  intros e' entry. subst e' entry.
  unfold Expression.getErrors, Expression.addError. simpl. split_and!; try done.
  - rewrite length_app. simpl. lia.
  - by rewrite take_app_length.
  - by rewrite <- app_assoc.
  - intros rs. exact (getErrors_recordAll rs e).
Qed.

(** C9.  Comment spans carry an inclusive end: [addComment(pos, length)]
    appends the pair [(pos, pos + length - 1)] at the end of the comment
    list that [getComments()] returns, and a run of calls appends its pairs
    in call order.  ([int] operands; [length + pos - 1] without signed
    overflow.) *)
Theorem C9_addComment_inclusive_end e (pos length : Z) (spans : list (Z * Z)) :
  Expression.no_overflow (pos, length) →
  Forall Expression.no_overflow spans →
  Expression.getComments (Expression.addComment pos length e)
  = Expression.getComments e ++ [(pos, pos + length - 1)]
  ∧ Expression.getComments (Expression.addComment_each spans e)
    = Expression.getComments e ++ (Expression.inclusive_span <$> spans).
Proof.
  intros Hone Hall. split.
  - unfold Expression.getComments, Expression.addComment. simpl.
    pose proof (CInt_span_end _ Hone) as Hend. simpl in Hend.
    by rewrite Hend.
  - by apply getComments_each.
Qed.

End Recorders.

(** An instance of C1: two call sites of the same function. *)
Lemma C1_thread_unsafe_calls_witness :
  Expression.getThreadUnsafeFunctionCalls
    (Expression.setThreadUnsafe_each ["printf"; "printf"]
       (demo_expression "printf(1) + printf(2)"))
  = ["printf"; "printf"]
  ∧ Expression.isThreadSafe
      (Expression.setThreadUnsafe_each ["printf"; "printf"]
         (demo_expression "printf(1) + printf(2)"))
    = false.
Proof.
  destruct (C1_thread_unsafe_calls
              (demo_expression "printf(1) + printf(2)")
              ["printf"; "printf"]) as (_ & _ & _ & Hfresh & Hunsafe).
  split.
  - apply Hfresh. reflexivity.
  - apply Hunsafe. simpl. lia.
Defined.

(** An instance of C9: the comment [# note] at offset 0, then a second
    comment of 3 characters at offset 12. *)
Lemma C9_addComment_inclusive_end_witness :
  Expression.getComments
    (Expression.addComment 0 6 (demo_expression "# note"))
  = [(0, 5)]
  ∧ Expression.getComments
      (Expression.addComment_each [(0, 6); (12, 3)] (demo_expression "# note"))
    = [(0, 5); (12, 14)].
Proof.
  apply (C9_addComment_inclusive_end (demo_expression "# note") 0 6
           [(0, 6); (12, 3)]).
  - unfold Expression.no_overflow, CInt.in_range, CInt.INT_MIN, CInt.INT_MAX.
    simpl. lia.
  - repeat constructor;
      unfold CInt.in_range, CInt.INT_MIN, CInt.INT_MAX; simpl; lia.
Defined.

(** ** Variable references *)

Section VarRefs.
Context `{Externals}.

Lemma store_inside {A : Type} (k : nat) (v : A) (p : list A) :
  (k < length p)%nat → store (Z.of_nat k) v p = Returned (<[k := v]> p).
Proof.
  intros Hk. unfold store.
  rewrite bool_decide_eq_true_2 by lia. by rewrite Nat2Z.id.
Qed.

Lemma store_outside {A : Type} (k : nat) (v : A) (p : list A) :
  (length p ≤ k)%nat → store (Z.of_nat k) v p = OutOfBounds.
Proof.
  intros Hk. unfold store. rewrite bool_decide_eq_false_2 by lia. done.
Qed.

Lemma store_not_assert {A : Type} (k : Z) (v : A) (p : list A) :
  store k v p ≠ AssertionFailed.
Proof. unfold store. by case_bool_decide. Qed.

Lemma for_steps_not_assert {S : Type} (body : Z → S → Outcome S) :
  (∀ k s, body k s ≠ AssertionFailed) →
  ∀ n k s, for_steps n k body s ≠ AssertionFailed.
Proof.
  intros Hbody. induction n as [|n IH]; intros k s; simpl; [done|].
  specialize (Hbody k s). destruct (body k s) as [s'| |]; simpl; done.
Qed.

Lemma vector_eval_not_assert (v : ExprVectorVarRef.t) (result : list double) :
  ExprVectorVarRef.eval v result ≠ AssertionFailed.
Proof.
  unfold ExprVectorVarRef.eval, for_int. apply for_steps_not_assert.
  intros k s. apply store_not_assert.
Qed.

Lemma scalar_eval_not_assert (s : ExprScalarVarRef.t) (result : list double) :
  ExprScalarVarRef.eval s result ≠ AssertionFailed.
Proof.
  unfold ExprScalarVarRef.eval, for_int. apply for_steps_not_assert.
  intros k s'. apply store_not_assert.
Qed.

Lemma calls_numeric_not_assert
    (evalFP : list double → Outcome (list double))
    (evalStr : list string → Outcome (list string)) :
  (∀ cells, evalFP cells ≠ AssertionFailed) →
  ∀ accs st, Forall (λ a, a = EvalNumeric) accs →
             calls evalFP evalStr accs st ≠ AssertionFailed.
Proof.
  intros Hfp accs st Hall. revert st.
  induction Hall as [|a accs -> _ IH]; intros st; simpl; [done|].
  specialize (Hfp (fp st)).
  destruct (evalFP (fp st)) as [cells| |]; simpl; done.
Qed.

Lemma vector_eval_three (v : ExprVectorVarRef.t) (a b c : double)
    (rest : list double) :
  let ret := ExprVectorVarRef.eval_node v None Vec3d_new in
  ExprVectorVarRef.eval v (a :: b :: c :: rest)
  = Returned (Vec3d_index ret 0 :: Vec3d_index ret 1 :: Vec3d_index ret 2
              :: rest).
Proof.
  intros ret. unfold ExprVectorVarRef.eval, for_int.
  change (Z.to_nat (3 - 0)) with 3%nat. fold ret.
  cbn [for_steps].
  rewrite (store_inside 0) by (simpl; lia). cbn [mbind Outcome_bind].
  rewrite (store_inside 1) by (simpl; lia). cbn [mbind Outcome_bind].
  rewrite (store_inside 2) by (simpl; lia). cbn [mbind Outcome_bind].
  done.
Qed.

Lemma vector_eval_short (v : ExprVectorVarRef.t) (result : list double) :
  (length result < 3)%nat → ExprVectorVarRef.eval v result = OutOfBounds.
Proof.
  intros Hlen. unfold ExprVectorVarRef.eval, for_int.
  change (Z.to_nat (3 - 0)) with 3%nat. cbn [for_steps].
  destruct result as [|a [|b [|c rest]]]; simpl in Hlen; try lia.
  - by rewrite (store_outside 0) by (simpl; lia).
  - rewrite (store_inside 0) by (simpl; lia). cbn [mbind Outcome_bind].
    by rewrite (store_outside 1) by (simpl; lia).
  - rewrite (store_inside 0) by (simpl; lia). cbn [mbind Outcome_bind].
    rewrite (store_inside 1) by (simpl; lia). cbn [mbind Outcome_bind].
    by rewrite (store_outside 2) by (simpl; lia).
Qed.

Lemma scalar_eval_one (s : ExprScalarVarRef.t) (a : double)
    (rest : list double) :
  let ret := ExprScalarVarRef.eval_node s None Vec3d_new in
  ExprScalarVarRef.eval s (a :: rest) = Returned (Vec3d_index ret 0 :: rest).
Proof.
  intros ret. unfold ExprScalarVarRef.eval, for_int.
  change (Z.to_nat (1 - 0)) with 1%nat. fold ret. cbn [for_steps].
  rewrite (store_inside 0) by (simpl; lia). done.
Qed.

(** C10.  The default numeric adapters write a fixed number of doubles
    whatever the declared type.  [ExprVectorVarRef::eval(double* result)]
    overwrites cells 0, 1 and 2 of the caller's storage with components 0,
    1 and 2 of the [Vec3d] that the node-based [eval] produced and leaves
    every other cell alone; this is so for a reference built with any
    dimension [dim] (its declared type is numeric of that dimension, the
    write is the same as for dimension 3), and on storage of fewer than 3
    cells the write runs past the end.  [ExprScalarVarRef::eval(double*
    result)] overwrites cell 0 with component 0 and nothing else. *)
Theorem C10_eval_writes_fixed_count
    (v : ExprVectorVarRef.t) (s : ExprScalarVarRef.t) (result : list double) :
  let rv := ExprVectorVarRef.eval_node v None Vec3d_new in
  let rs := ExprScalarVarRef.eval_node s None Vec3d_new in
  ((3 ≤ length result)%nat →
     ExprVectorVarRef.eval v result
     = Returned (Vec3d_index rv 0 :: Vec3d_index rv 1 :: Vec3d_index rv 2
                 :: drop 3 result))
  ∧ ((length result < 3)%nat →
     ExprVectorVarRef.eval v result = OutOfBounds)
  ∧ (∀ dim impl,
       ExprVarRef.type (ExprVectorVarRef.base (ExprVectorVarRef.new dim impl))
       = ExprType.mk (ExprType.KNumeric dim) ExprType.Varying
       ∧ ExprVectorVarRef.eval (ExprVectorVarRef.new dim impl) result
         = ExprVectorVarRef.eval
             (ExprVectorVarRef.new ExprVectorVarRef.default_dim impl) result)
  ∧ ((1 ≤ length result)%nat →
     ExprScalarVarRef.eval s result
     = Returned (Vec3d_index rs 0 :: drop 1 result)).
Proof.
  intros rv rs. split_and!.
  - intros Hlen. destruct result as [|a [|b [|c rest]]]; simpl in Hlen; try lia.
    apply vector_eval_three.
  - apply vector_eval_short.
  - done.
  - intros Hlen. destruct result as [|a rest]; simpl in Hlen; try lia.
    apply scalar_eval_one.
Qed.

(** C7.  The string overload of a numeric-backed reference aborts:
    [eval(const char** result)] of every [ExprVectorVarRef] and every
    [ExprScalarVarRef] fails its [assert(false)] (assertions compiled in)
    and in no build writes a string result.  A caller that only uses the
    numeric overload never runs into that assertion. *)
Theorem C7_string_eval_aborts
    (v : ExprVectorVarRef.t) (s : ExprScalarVarRef.t) (result : list string) :
  ExprVectorVarRef.eval_str false v result = AssertionFailed
  ∧ ExprScalarVarRef.eval_str false s result = AssertionFailed
  ∧ (∀ NDEBUG result',
       (ExprVectorVarRef.eval_str NDEBUG v result = Returned result'
        ∨ ExprScalarVarRef.eval_str NDEBUG s result = Returned result') →
       result' = result)
  ∧ (∀ NDEBUG accs st,
       Forall (λ a, a = EvalNumeric) accs →
       calls (ExprVectorVarRef.eval v) (ExprVectorVarRef.eval_str NDEBUG v)
         accs st ≠ AssertionFailed
       ∧ calls (ExprScalarVarRef.eval s) (ExprScalarVarRef.eval_str NDEBUG s)
           accs st ≠ AssertionFailed).
Proof.
  split_and!; try done.
  - intros [|] result' [Heq|Heq]; cbv in Heq; congruence.
  - intros NDEBUG accs st Hall. split.
    + apply calls_numeric_not_assert; [apply vector_eval_not_assert | done].
    + apply calls_numeric_not_assert; [apply scalar_eval_not_assert | done].
Qed.

End VarRefs.

(** An instance of C10: a vector reference declared with dimension 2 still
    writes three cells of four, and a scalar reference writes one. *)
Lemma C10_eval_writes_fixed_count_witness :
  ExprVectorVarRef.eval (demo_vector 2) [1; 2; 3; 4]
  = Returned [10; 20; 30; 4]
  ∧ ExprVectorVarRef.eval (demo_vector 2) [1; 2] = OutOfBounds
  ∧ ExprScalarVarRef.eval demo_scalar [1; 2; 3; 4] = Returned [7; 2; 3; 4].
Proof.
  destruct (C10_eval_writes_fixed_count (demo_vector 2) demo_scalar
              [1; 2; 3; 4]) as (Hvec & _ & _ & Hsca).
  destruct (C10_eval_writes_fixed_count (demo_vector 2) demo_scalar
              [1; 2]) as (_ & Hshort & _ & _).
  split_and!.
  - apply Hvec. simpl. lia.
  - apply Hshort. simpl. lia.
  - apply Hsca. simpl. lia.
Defined.

(** An instance of C7: three numeric reads in a row return; a string read
    fails the assertion. *)
Lemma C7_string_eval_aborts_witness :
  calls (ExprVectorVarRef.eval (demo_vector 3))
    (ExprVectorVarRef.eval_str false (demo_vector 3))
    [EvalNumeric; EvalNumeric; EvalNumeric]
    (@mkStorage demo_externals [0; 0; 0] ["s"])
  ≠ AssertionFailed
  ∧ ExprVectorVarRef.eval_str false (demo_vector 3) ["s"] = AssertionFailed.
Proof.
  destruct (C7_string_eval_aborts (demo_vector 3) demo_scalar ["s"])
    as (Habort & _ & _ & Hnum).
  split; [|exact Habort].
  apply (Hnum false [EvalNumeric; EvalNumeric; EvalNumeric]
           (@mkStorage demo_externals [0; 0; 0] ["s"])).
  repeat constructor.
Defined.

(** ** Type descriptors *)

(** C6.  Unification is dominance-ordered.  [unify(Error, t)] and
    [unify(t, Error)] are [Error], and the kind of a unification is Error
    as soon as one operand's is.  When both operands have the same kind the
    result keeps it (a numeric operand of dimension 1 broadcasts to the
    other dimension), and its variability is the dominant one of the two:
    Varying as soon as one operand is Varying.  In particular
    [unify(Error, Numeric(3)) = Error] and
    [unify(Numeric(1, Constant), Numeric(1, Varying)) = Numeric(1, Varying)]. *)
Theorem C6_unify_dominance (a b : ExprType.t) :
  ExprType.unify ExprType.error a = ExprType.error
  ∧ ExprType.unify a ExprType.error = ExprType.error
  ∧ (ExprType.kind a = ExprType.KError ∨ ExprType.kind b = ExprType.KError →
     ExprType.kind (ExprType.unify a b) = ExprType.KError)
  ∧ (ExprType.kind a = ExprType.kind b →
     ExprType.kind (ExprType.unify a b) = ExprType.kind a)
  ∧ (∀ d, ExprType.kind a = ExprType.KNumeric 1 →
          ExprType.kind b = ExprType.KNumeric d →
          ExprType.kind (ExprType.unify a b) = ExprType.KNumeric d
          ∧ ExprType.kind (ExprType.unify b a) = ExprType.KNumeric d)
  ∧ ExprType.variability (ExprType.unify a b)
    = ExprType.dominant (ExprType.variability a) (ExprType.variability b)
  ∧ (ExprType.variability a = ExprType.Varying
     ∨ ExprType.variability b = ExprType.Varying →
     ExprType.variability (ExprType.unify a b) = ExprType.Varying)
  ∧ ExprType.unify ExprType.error (ExprType.numeric 3) = ExprType.error
  ∧ ExprType.unify
      (ExprType.withVariability ExprType.Constant (ExprType.numeric 1))
      (ExprType.withVariability ExprType.Varying (ExprType.numeric 1))
    = ExprType.withVariability ExprType.Varying (ExprType.numeric 1).
Proof.
  destruct a as [ka va], b as [kb vb]. simpl. split_and!.
  - by destruct va.
  - by destruct ka, va.
  - intros [-> | ->]; [done | by destruct ka].
  - intros <-. destruct ka as [|d|]; simpl; try done. by rewrite decide_True.
  - intros d -> ->. unfold ExprType.unify. simpl.
    repeat case_decide; subst; done.
  - done.
  - intros [-> | ->]; [done | by destruct va].
  - done.
  - done.
Qed.

(** An instance of C6: a constant scalar against a varying 3-vector, and
    a string against an error. *)
Lemma C6_unify_dominance_witness :
  ExprType.unify
    (ExprType.withVariability ExprType.Constant (ExprType.numeric 1))
    (ExprType.numeric 3)
  = ExprType.numeric 3
  ∧ ExprType.kind (ExprType.unify ExprType.string ExprType.error)
    = ExprType.KError.
Proof.
  destruct (C6_unify_dominance
              (ExprType.withVariability ExprType.Constant (ExprType.numeric 1))
              (ExprType.numeric 3)) as (_ & _ & _ & _ & Hcast & _ & Hvar & _).
  destruct (C6_unify_dominance ExprType.string ExprType.error)
    as (_ & _ & Herr & _).
  split.
  - destruct (Hcast 3 eq_refl eq_refl) as [Hkind _].
    specialize (Hvar (or_intror eq_refl)).
    destruct (ExprType.unify _ _) as [k v]. simpl in *. by subst.
  - apply Herr. by right.
Defined.

(** ** Staging *)

Section Staging.
Context `{Externals} `{!Expression.OutOfLine}.
Implicit Types (e : Expression.t) (rs : list Expression.Recording).

Lemma parseIfNeeded_parsed e :
  Expression.parse_sets_flag →
  Expression._parsed (Expression.parseIfNeeded e) = true.
Proof.
  intros Hparse. unfold Expression.parseIfNeeded.
  destruct (Expression._parsed e) eqn:Hflag; simpl; [done | apply Hparse].
Qed.

Lemma prepIfNeeded_prepped e :
  Expression.prep_sets_flag →
  Expression._prepped (Expression.prepIfNeeded e) = true.
Proof.
  intros Hprep. unfold Expression.prepIfNeeded.
  destruct (Expression._prepped e) eqn:Hflag; simpl; [done | apply Hprep].
Qed.

Lemma prepIfNeeded_skip e :
  Expression._prepped e = true → Expression.prepIfNeeded e = e.
Proof. intros Hflag. unfold Expression.prepIfNeeded. by rewrite Hflag. Qed.

Lemma parseIfNeeded_skip e :
  Expression._parsed e = true → Expression.parseIfNeeded e = e.
Proof. intros Hflag. unfold Expression.parseIfNeeded. by rewrite Hflag. Qed.

Lemma isValid_again e :
  Expression.prep_sets_flag →
  Expression.isValid (Expression.isValid e).1 = Expression.isValid e.
Proof.
  intros Hprep. unfold Expression.isValid. simpl.
  by rewrite (prepIfNeeded_skip _ (prepIfNeeded_prepped e Hprep)).
Qed.

Lemma isValid_times_S (n : nat) e :
  Expression.prep_sets_flag →
  Expression.isValid_times (S n) e
  = ((Expression.isValid e).1, replicate (S n) (Expression.isValid e).2).
Proof.
  intros Hprep. revert e. induction n as [|n IH]; intros e.
  - simpl. by destruct (Expression.isValid e).
  - change (Expression.isValid_times (S (S n)) e)
      with (let '(e1, b) := Expression.isValid e in
            let '(e2, bs) := Expression.isValid_times (S n) e1 in
            (e2, b :: bs)).
    destruct (Expression.isValid e) as [e1 b] eqn:Hfirst.
    rewrite IH.
    pose proof (isValid_again e Hprep) as Hagain.
    rewrite Hfirst in Hagain. simpl in Hagain. rewrite Hagain. done.
Qed.

(** C3.  [isValid()] is idempotent.  Provided [prep()] sets [_prepped],
    after the first call the guard of [prepIfNeeded()] skips [prep()], so a
    further call leaves the object as it is and answers the same; [N >= 1]
    calls in a row with no [setExpr] between them all give the answer of
    the first, and the error list after them is the one after the first. *)
Theorem C3_isValid_idempotent e (n : nat) :
  Expression.prep_sets_flag →
  let first := Expression.isValid e in
  Expression.prepIfNeeded first.1 = first.1
  ∧ Expression.isValid first.1 = first
  ∧ Expression.isValid_times (S n) e = (first.1, replicate (S n) first.2)
  ∧ Expression.getErrors (Expression.isValid_times (S n) e).1
    = Expression.getErrors first.1.
Proof.
  intros Hprep first. subst first. split_and!.
  - apply prepIfNeeded_skip. apply (prepIfNeeded_prepped e Hprep).
  - by apply isValid_again.
  - by apply isValid_times_S.
  - by rewrite isValid_times_S.
Qed.

(** C8.  [usesVar(name)] and [usesFunc(name)] need the parse stage only:
    the object they leave is the one [parseIfNeeded()] leaves, that is the
    object itself or the parsed one, whatever [prep()] is ([prep()] is not
    run); the answer is whether [name] is in the set of used variables
    (functions) of that object, the sets that [addVar] and [addFunc]
    fill. *)
Theorem C8_uses_need_parse_only e (name : string) :
  ((Expression.usesVar name e).1 = Expression.parseIfNeeded e
   ∧ (Expression.usesFunc name e).1 = Expression.parseIfNeeded e)
  ∧ (Expression.parseIfNeeded e = e
     ∨ Expression.parseIfNeeded e = Expression.parse e)
  ∧ (∀ prep' : Expression.t → Expression.t,
       @Expression.usesVar _ (Expression.with_prep prep') name e
       = Expression.usesVar name e
       ∧ @Expression.usesFunc _ (Expression.with_prep prep') name e
         = Expression.usesFunc name e)
  ∧ ((Expression.usesVar name e).2 = true
       ↔ name ∈ Expression._vars (Expression.parseIfNeeded e))
  ∧ ((Expression.usesFunc name e).2 = true
       ↔ name ∈ Expression._funcs (Expression.parseIfNeeded e))
  ∧ (Expression._parsed e = true →
     (Expression.usesVar name e).1 = e
     ∧ (Expression.usesVar name (Expression.addVar name e)).2 = true
     ∧ (Expression.usesFunc name (Expression.addFunc name e)).2 = true
     ∧ (Expression._vars e = ∅ → (Expression.usesVar name e).2 = false)).
Proof.
  split_and!; try done.
  - unfold Expression.parseIfNeeded. destruct (negb _); auto.
  - unfold Expression.usesVar. simpl. apply bool_decide_eq_true.
  - unfold Expression.usesFunc. simpl. apply bool_decide_eq_true.
  - intros Hflag. unfold Expression.usesVar, Expression.usesFunc. simpl.
    rewrite !parseIfNeeded_skip by done. split_and!; try done.
    + apply bool_decide_eq_true. simpl. set_solver.
    + apply bool_decide_eq_true. simpl. set_solver.
    + intros ->. apply bool_decide_eq_false. set_solver.
Qed.

(** C2, as amended.  The queries that need a tree ([syntaxOK], [isConstant],
    [usesVar], [usesFunc]) leave the object that [parseIfNeeded()] leaves,
    which is parsed; those that need binding ([isValid], [isVec],
    [returnType]) leave the object that [prepIfNeeded()] leaves, which is
    prepared, and [isValid] answers its [_isValid].  [isThreadSafe],
    [getErrors], [getComments] and [getThreadUnsafeFunctionCalls] run no
    stage: they leave the object as it is and answer from the lists stored
    in it. *)
Theorem C2_queries_and_staging e (q : Expression.Query) :
  Expression.parse_sets_flag →
  Expression.prep_sets_flag →
  (q ∈ [Expression.QsyntaxOK; Expression.QisConstant] ∨
   (∃ name, q = Expression.QusesVar name ∨ q = Expression.QusesFunc name) →
     (Expression.ask q e).1 = Expression.parseIfNeeded e
     ∧ Expression._parsed (Expression.ask q e).1 = true)
  ∧ (q ∈ [Expression.QisValid; Expression.QisVec; Expression.QreturnType] →
     (Expression.ask q e).1 = Expression.prepIfNeeded e
     ∧ Expression._prepped (Expression.ask q e).1 = true)
  ∧ Expression.ask Expression.QisValid e
    = (Expression.prepIfNeeded e,
       Expression.ABool (Expression._isValid (Expression.prepIfNeeded e)))
  ∧ (q ∈ [Expression.QisThreadSafe; Expression.QgetErrors;
          Expression.QgetComments; Expression.QgetThreadUnsafeFunctionCalls] →
     (Expression.ask q e).1 = e)
  ∧ Expression.ask Expression.QgetErrors e
    = (e, Expression.AErrors (Expression._errors e))
  ∧ Expression.ask Expression.QgetComments e
    = (e, Expression.AComments (Expression._comments e))
  ∧ Expression.ask Expression.QgetThreadUnsafeFunctionCalls e
    = (e, Expression.ANames (Expression._threadUnsafeFunctionCalls e))
  ∧ Expression.ask Expression.QisThreadSafe e
    = (e, Expression.ABool
            (bool_decide (Expression._threadUnsafeFunctionCalls e = []))).
Proof.
  intros Hparse Hprep. split_and!; try done.
  - intros [Hq | (name & [-> | ->])].
    + set_unfold in Hq. destruct Hq as [-> | [-> | []]]; simpl;
        (split; [done | by apply parseIfNeeded_parsed]).
    + simpl. split; [done | by apply parseIfNeeded_parsed].
    + simpl. split; [done | by apply parseIfNeeded_parsed].
  - intros Hq. set_unfold in Hq.
    destruct Hq as [-> | [-> | [-> | []]]]; simpl;
      (split; [done | by apply prepIfNeeded_prepped]).
  - intros Hq. set_unfold in Hq.
    destruct Hq as [-> | [-> | [-> | [-> | []]]]]; done.
  - simpl. unfold Expression.isThreadSafe.
    destruct (Expression._threadUnsafeFunctionCalls e); done.
Qed.

(** C4.  [setExpr(text)] resets to the unparsed state whatever the state
    was: the text is the new one, both stage flags are down, and the tree,
    errors, comments, usage sets and thread-safety list are empty.  Nothing
    recorded for the previous text survives: the object after
    [setExpr(text)] is the same whatever had been recorded or set before,
    so whatever runs next, [getErrors()] is the same as if the previous
    text had never been there, and the errors recorded afterwards are
    exactly those that [getErrors()] returns. *)
Theorem C4_setExpr_resets e (text : string) :
  let e' := Expression.setExpr text e in
  (Expression.getExpr e' = text
   ∧ Expression._parsed e' = false
   ∧ Expression._prepped e' = false
   ∧ Expression._parseTree e' = None
   ∧ Expression.getErrors e' = []
   ∧ Expression.getComments e' = []
   ∧ Expression._vars e' = ∅
   ∧ Expression._funcs e' = ∅
   ∧ Expression.getThreadUnsafeFunctionCalls e' = []
   ∧ Expression.isThreadSafe e' = true)
  ∧ (∀ rs, Expression.setExpr text (Expression.recordAll rs e) = e')
  ∧ (∀ old, Expression.setExpr text (Expression.setExpr old e) = e')
  ∧ (∀ rs, Expression.getErrors (Expression.recordAll rs e')
           = Expression.errorsOf rs)
  ∧ (∀ (next : Expression.t → Expression.t) old rs,
       Expression.getErrors
         (next (Expression.setExpr text
                  (Expression.recordAll rs (Expression.setExpr old e))))
       = Expression.getErrors (next e')).
Proof.
  intros e'. subst e'.
  assert (Hgone : ∀ rs e0,
            Expression.setExpr text (Expression.recordAll rs e0)
            = Expression.setExpr text e0).
  { induction rs as [|r rs IH]; intros e0; [done|].
    unfold Expression.recordAll in *. simpl. rewrite IH. by destruct r. }
  split_and!; try done.
  - intros rs. apply getErrors_recordAll.
  - intros next old rs. by rewrite Hgone.
Qed.

End Staging.

(** ** The stand-in stages keep the flag contract *)

Lemma demo_parse_sets_flag :
  @Expression.parse_sets_flag demo_externals demo_outofline.
Proof.
  intros e. simpl. unfold demo_parse.
  by destruct (String.eqb (Expression._expression e) "1 +").
Defined.

Lemma demo_prep_sets_flag :
  @Expression.prep_sets_flag demo_externals demo_outofline.
Proof. intros e. reflexivity. Defined.

(** C2 as stated fails: [getErrors()] asked on a fresh object holding the
    malformed text ["1 +"] runs no stage (the object is not parsed
    afterwards) and answers the empty list, while the staged object has one
    error. *)
Lemma C2_counterexample :
  let e := demo_expression "1 +" in
  @Expression.ask demo_externals demo_outofline Expression.QgetErrors e
  = (e, Expression.AErrors [])
  ∧ Expression._parsed e = false
  ∧ Expression.getErrors
      (@Expression.isValid demo_externals demo_outofline e).1
    = [Expression.mkError "syntax error" 3 3]
  ∧ ¬ (∀ q, @Expression.triggers_staging demo_externals demo_outofline q).
Proof.
  split_and!; try reflexivity.
  intros Hall.
  specialize (Hall Expression.QgetErrors (demo_expression "1 +") eq_refl).
  discriminate Hall.
Qed.

(** An instance of the amended C2: [isValid()] on the fresh object stages
    it, [getErrors()] does not. *)
Lemma C2_queries_and_staging_witness :
  Expression._prepped
    (@Expression.ask demo_externals demo_outofline Expression.QisValid
       (demo_expression "1 +")).1 = true
  ∧ (@Expression.ask demo_externals demo_outofline Expression.QgetErrors
       (demo_expression "1 +")).1 = demo_expression "1 +".
Proof.
  destruct (@C2_queries_and_staging demo_externals demo_outofline
              (demo_expression "1 +") Expression.QisValid
              demo_parse_sets_flag demo_prep_sets_flag)
    as (_ & Hprep & _).
  destruct (@C2_queries_and_staging demo_externals demo_outofline
              (demo_expression "1 +") Expression.QgetErrors
              demo_parse_sets_flag demo_prep_sets_flag)
    as (_ & _ & _ & Hplain & _).
  split.
  - apply Hprep. repeat constructor.
  - apply Hplain. repeat constructor.
Defined.

(** An instance of C3: three calls on the malformed text ["1 +"]. *)
Lemma C3_isValid_idempotent_witness :
  (@Expression.isValid_times demo_externals demo_outofline 3
     (demo_expression "1 +")).2 = [false; false; false]
  ∧ Expression.getErrors
      (@Expression.isValid_times demo_externals demo_outofline 3
         (demo_expression "1 +")).1
    = [Expression.mkError "syntax error" 3 3].
Proof.
  destruct (@C3_isValid_idempotent demo_externals demo_outofline
              (demo_expression "1 +") 2 demo_prep_sets_flag)
    as (_ & _ & Htimes & Herrs).
  split.
  - rewrite Htimes. reflexivity.
  - rewrite Herrs. reflexivity.
Defined.

(** An instance of C8: a parsed object in which [x] was recorded. *)
Lemma C8_uses_need_parse_only_witness :
  (@Expression.usesVar demo_externals demo_outofline "x"
     (Expression.addVar "x" (demo_parse (demo_expression "$x + 1")))).2 = true
  ∧ (@Expression.usesVar demo_externals demo_outofline "y"
       (demo_parse (demo_expression "$x + 1"))).2 = false.
Proof.
  destruct (@C8_uses_need_parse_only demo_externals demo_outofline
              (demo_parse (demo_expression "$x + 1")) "x")
    as (_ & _ & _ & _ & _ & Hparsed).
  destruct (@C8_uses_need_parse_only demo_externals demo_outofline
              (demo_parse (demo_expression "$x + 1")) "y")
    as (_ & _ & _ & _ & _ & Hparsed').
  split.
  - apply Hparsed. reflexivity.
  - apply Hparsed'; reflexivity.
Defined.

(* ===================================================================== *)
(** * Part III: further properties of the header's code                  *)
(* ===================================================================== *)

(** ** What the recorders leave alone, and how they compose *)

Section RecorderProperties.
Context `{Externals}.
Implicit Types (e : Expression.t) (rs : list Expression.Recording).

Lemma recordAll_cons r rs e :
  Expression.recordAll (r :: rs) e
  = Expression.recordAll rs (Expression.record e r).
Proof. done. Qed.

Lemma recordAll_static rs e :
  Expression._expression (Expression.recordAll rs e) = Expression._expression e
  ∧ Expression._parseError (Expression.recordAll rs e)
    = Expression._parseError e
  ∧ Expression._parsed (Expression.recordAll rs e) = Expression._parsed e
  ∧ Expression._prepped (Expression.recordAll rs e) = Expression._prepped e
  ∧ Expression._isValid (Expression.recordAll rs e) = Expression._isValid e
  ∧ Expression._parseTree (Expression.recordAll rs e)
    = Expression._parseTree e
  ∧ Expression._wantVec (Expression.recordAll rs e) = Expression._wantVec e
  ∧ Expression._returnType (Expression.recordAll rs e)
    = Expression._returnType e
  ∧ Expression._desiredReturnType (Expression.recordAll rs e)
    = Expression._desiredReturnType e.
Proof.
  revert e. induction rs as [|r rs IH]; intros e; [done|].
  rewrite recordAll_cons.
  destruct (IH (Expression.record e r))
    as (-> & -> & -> & -> & -> & -> & -> & -> & ->).
  by destruct r.
Qed.

Lemma vars_recordAll rs e (n : string) :
  n ∈ Expression._vars (Expression.recordAll rs e)
  ↔ n ∈ Expression._vars e ∨ Expression.RecVar n ∈ rs.
Proof.
  revert e. induction rs as [|r rs IH]; intros e.
  - simpl. rewrite elem_of_nil. tauto.
  - rewrite recordAll_cons, IH, elem_of_cons.
    destruct r; simpl; try (split; [intros [?|?]; auto | intros [?|[?|?]]; auto; discriminate]).
    rewrite elem_of_union, elem_of_singleton. split.
    + intros [[->|?]|?]; auto.
    + intros [?|[[= ->]|?]]; auto.
Qed.

Lemma funcs_recordAll rs e (n : string) :
  n ∈ Expression._funcs (Expression.recordAll rs e)
  ↔ n ∈ Expression._funcs e ∨ Expression.RecFunc n ∈ rs.
Proof.
  revert e. induction rs as [|r rs IH]; intros e.
  - simpl. rewrite elem_of_nil. tauto.
  - rewrite recordAll_cons, IH, elem_of_cons.
    destruct r; simpl; try (split; [intros [?|?]; auto | intros [?|[?|?]]; auto; discriminate]).
    rewrite elem_of_union, elem_of_singleton. split.
    + intros [[->|?]|?]; auto.
    + intros [?|[[= ->]|?]]; auto.
Qed.

Lemma threadUnsafeOf_elem rs (name : string) :
  name ∈ Expression.threadUnsafeOf rs ↔ Expression.RecThreadUnsafe name ∈ rs.
Proof.
  unfold Expression.threadUnsafeOf. rewrite list_elem_of_omap. split.
  - intros (r & Hr & Hsome). destruct r; simplify_eq. done.
  - intros Hin. by exists (Expression.RecThreadUnsafe name).
Qed.

(** X1.  A run of recordings writes the five containers only: the text,
    the cached parse error, both stage flags, the validity flag, the tree,
    and the wanted, inferred and desired types are those of the object
    before.  Recording an error therefore neither invalidates the
    expression nor reopens a stage. *)
Theorem X1_recordings_leave_stage_alone rs e :
  let e' := Expression.recordAll rs e in
  Expression.getExpr e' = Expression.getExpr e
  ∧ Expression.parseError e' = Expression.parseError e
  ∧ Expression._parsed e' = Expression._parsed e
  ∧ Expression._prepped e' = Expression._prepped e
  ∧ Expression._isValid e' = Expression._isValid e
  ∧ Expression._parseTree e' = Expression._parseTree e
  ∧ Expression.wantVec e' = Expression.wantVec e
  ∧ Expression._returnType e' = Expression._returnType e
  ∧ Expression._desiredReturnType e' = Expression._desiredReturnType e.
Proof. intros e'. apply recordAll_static. Qed.

(** X3.  The usage sets are sets: after a run of recordings a name is in
    the set of used variables exactly when it was there before or [addVar]
    was called with it during the run (likewise for functions); calling
    [addVar] twice with one name is the same as calling it once, and the
    order of two [addVar] calls does not matter. *)
Theorem X3_usage_sets rs e (n m : string) :
  (n ∈ Expression._vars (Expression.recordAll rs e)
     ↔ n ∈ Expression._vars e ∨ Expression.RecVar n ∈ rs)
  ∧ (n ∈ Expression._funcs (Expression.recordAll rs e)
     ↔ n ∈ Expression._funcs e ∨ Expression.RecFunc n ∈ rs)
  ∧ Expression.addVar n (Expression.addVar n e) = Expression.addVar n e
  ∧ Expression.addFunc n (Expression.addFunc n e) = Expression.addFunc n e
  ∧ Expression.addVar n (Expression.addVar m e)
    = Expression.addVar m (Expression.addVar n e)
  ∧ Expression.addFunc n (Expression.addFunc m e)
    = Expression.addFunc m (Expression.addFunc n e).
Proof.
  split_and!.
  - apply vars_recordAll.
  - apply funcs_recordAll.
  - unfold Expression.addVar, Expression.set_vars. simpl. f_equal. union_eq.
  - unfold Expression.addFunc, Expression.set_funcs. simpl. f_equal. union_eq.
  - unfold Expression.addVar, Expression.set_vars. simpl. f_equal. union_eq.
  - unfold Expression.addFunc, Expression.set_funcs. simpl. f_equal. union_eq.
Qed.

(** X4.  Thread-unsafety is sticky.  After a run of recordings
    [isThreadSafe()] answers true exactly when it did before and the run
    holds no [setThreadUnsafe] call; no recording makes an unsafe
    expression safe again, and every name passed to [setThreadUnsafe]
    during the run is in [getThreadUnsafeFunctionCalls()]. *)
Theorem X4_thread_unsafety_sticky rs e :
  (Expression.isThreadSafe (Expression.recordAll rs e) = true
     ↔ Expression.isThreadSafe e = true
       ∧ ∀ name, Expression.RecThreadUnsafe name ∉ rs)
  ∧ (Expression.isThreadSafe e = false →
     Expression.isThreadSafe (Expression.recordAll rs e) = false)
  ∧ (∀ name, Expression.RecThreadUnsafe name ∈ rs →
       name ∈ Expression.getThreadUnsafeFunctionCalls
                (Expression.recordAll rs e)
       ∧ Expression.isThreadSafe (Expression.recordAll rs e) = false).
Proof.
  assert (Hiff :
    Expression.isThreadSafe (Expression.recordAll rs e) = true
    ↔ Expression.isThreadSafe e = true
      ∧ ∀ name, Expression.RecThreadUnsafe name ∉ rs).
  { rewrite !isThreadSafe_nil, getThreadUnsafeFunctionCalls_recordAll. split.
    - intros [Hold Hnew]%app_eq_nil. split; [done|].
      intros name Hin%threadUnsafeOf_elem. rewrite Hnew in Hin.
      by apply elem_of_nil in Hin.
    - intros [-> Hnone]. simpl.
      destruct (Expression.threadUnsafeOf rs) as [|name names] eqn:Hof; [done|].
      exfalso. apply (Hnone name), threadUnsafeOf_elem. rewrite Hof.
      by left. }
  split_and!.
  - exact Hiff.
  - intros Hunsafe. apply not_true_is_false. intros [Hsafe _]%Hiff. congruence.
  - intros name Hin. split.
    + rewrite getThreadUnsafeFunctionCalls_recordAll, elem_of_app. right.
      by apply threadUnsafeOf_elem.
    + apply not_true_is_false. intros [_ Hnone]%Hiff. by apply (Hnone name).
Qed.

(** X5.  [addComment] validates nothing: the span it appends starts at
    [pos] and covers [length] characters (its end minus its start plus one
    is [length]), so its end is at or after its start exactly when
    [length >= 1]; a comment of length 0 is recorded with its end one
    before its start.  ([int] operands; no signed overflow.) *)
Theorem X5_comment_span_shape e (pos length : Z) :
  Expression.no_overflow (pos, length) →
  ∃ span,
    last (Expression.getComments (Expression.addComment pos length e))
    = Some span
    ∧ span.1 = pos
    ∧ span.2 - span.1 + 1 = length
    ∧ (span.1 ≤ span.2 ↔ 1 ≤ length)
    ∧ (length = 0 → span.2 = pos - 1).
Proof.
  intros Hok. exists (pos, pos + length - 1).
  pose proof (CInt_span_end _ Hok) as Hend. simpl in Hend.
  unfold Expression.getComments, Expression.addComment. simpl.
  rewrite Hend, last_snoc. simpl. split_and!; [done | done | lia | lia | lia].
Qed.

(** X6.  Recordings into different members commute, and so do two
    recordings into a usage set; the lists keep call order: two [addError]
    calls (two [setThreadUnsafe] calls) can be swapped only when they
    record equal entries. *)
Theorem X6_recordings_commute e (r1 r2 : Expression.Recording)
    (error1 error2 : string) (start1 end1 start2 end2 : Z)
    (name1 name2 : string) :
  (Expression.written r1 ≠ Expression.written r2
   ∨ (Expression.written r1 = Expression.written r2
      ∧ Expression.written r1 ∈ [Expression.MVars; Expression.MFuncs]) →
   Expression.record (Expression.record e r1) r2
   = Expression.record (Expression.record e r2) r1)
  ∧ (Expression.addError error1 start1 end1
       (Expression.addError error2 start2 end2 e)
     = Expression.addError error2 start2 end2
         (Expression.addError error1 start1 end1 e)
     ↔ Expression.mkError error1 start1 end1
       = Expression.mkError error2 start2 end2)
  ∧ (Expression.setThreadUnsafe name1 (Expression.setThreadUnsafe name2 e)
     = Expression.setThreadUnsafe name2 (Expression.setThreadUnsafe name1 e)
     ↔ name1 = name2).
Proof.
  split_and!.
  - intros [Hne | [Heq Hset]].
    + destruct r1, r2; simpl in Hne; try done.
    + set_unfold in Hset.
      destruct r1, r2; simpl in Heq, Hset; try done;
        try (destruct Hset as [?|[?|[]]]; discriminate).
      * unfold Expression.record, Expression.addVar, Expression.set_vars.
        simpl. f_equal. union_eq.
      * unfold Expression.record, Expression.addFunc, Expression.set_funcs.
        simpl. f_equal. union_eq.
  - split.
    + intros Heq. apply (f_equal Expression.getErrors) in Heq.
      unfold Expression.getErrors, Expression.addError in Heq. simpl in Heq.
      rewrite <- !app_assoc in Heq. apply app_inv_head in Heq.
      simpl in Heq. congruence.
    + intros [= -> -> ->]. done.
  - split.
    + intros Heq.
      apply (f_equal Expression.getThreadUnsafeFunctionCalls) in Heq.
      unfold Expression.getThreadUnsafeFunctionCalls,
        Expression.setThreadUnsafe in Heq. simpl in Heq.
      rewrite <- !app_assoc in Heq. apply app_inv_head in Heq.
      simpl in Heq. congruence.
    + intros ->. done.
Qed.

(** X15.  Each list receives its own recordings, in call order, whatever
    is recorded in between: after any run, the comments (the thread-unsafe
    names) are those held before followed by those of the [addComment]
    ([setThreadUnsafe]) calls of the run; and a run made in two parts is
    the second part applied to the result of the first. *)
Theorem X15_lists_follow_call_order rs rs' e :
  Expression.getComments (Expression.recordAll rs e)
  = Expression.getComments e ++ Expression.commentsOf rs
  ∧ Expression.getThreadUnsafeFunctionCalls (Expression.recordAll rs e)
    = Expression.getThreadUnsafeFunctionCalls e ++ Expression.threadUnsafeOf rs
  ∧ Expression.recordAll (rs ++ rs') e
    = Expression.recordAll rs' (Expression.recordAll rs e)
  ∧ Expression.getErrors (Expression.recordAll (rs ++ rs') e)
    = Expression.getErrors e ++ Expression.errorsOf rs
      ++ Expression.errorsOf rs'.
Proof.
  assert (Hsplit : Expression.recordAll (rs ++ rs') e
                   = Expression.recordAll rs' (Expression.recordAll rs e))
    by apply fold_left_app.
  split_and!.
  - apply getComments_recordAll.
  - apply getThreadUnsafeFunctionCalls_recordAll.
  - exact Hsplit.
  - rewrite Hsplit, !getErrors_recordAll. by rewrite <- app_assoc.
Qed.

End RecorderProperties.

(** ** The stage guards *)

Section GuardProperties.
Context `{Externals} `{!Expression.OutOfLine}.
Implicit Types (e : Expression.t) (rs : list Expression.Recording).

Lemma parseIfNeeded_again e :
  Expression.parse_sets_flag →
  Expression.parseIfNeeded (Expression.parseIfNeeded e)
  = Expression.parseIfNeeded e.
Proof.
  intros Hparse. apply parseIfNeeded_skip. by apply parseIfNeeded_parsed.
Qed.

Lemma parseIfNeeded_iter (n : nat) e :
  Expression.parse_sets_flag →
  Nat.iter (S n) Expression.parseIfNeeded e = Expression.parseIfNeeded e.
Proof.
  intros Hparse. induction n as [|n IH]; [done|].
  change (Nat.iter (S (S n)) Expression.parseIfNeeded e)
    with (Expression.parseIfNeeded (Nat.iter (S n) Expression.parseIfNeeded e)).
  rewrite IH. by apply parseIfNeeded_again.
Qed.

(** X2.  The validity answer is a cached flag.  On an object that is
    already prepared, [isValid()] runs no stage and answers the stored
    [_isValid]; recordings made after preparation, errors included, do not
    change that answer, nor does the list of errors have to be empty for it
    to be true. *)
Theorem X2_isValid_is_cached e rs :
  Expression._prepped e = true →
  Expression.isValid e = (e, Expression._isValid e)
  ∧ Expression.isValid (Expression.recordAll rs e)
    = (Expression.recordAll rs e, Expression._isValid e)
  ∧ Expression.getErrors (Expression.isValid (Expression.recordAll rs e)).1
    = Expression.getErrors e ++ Expression.errorsOf rs.
Proof.
  intros Hprepped.
  destruct (recordAll_static rs e) as (_ & _ & _ & Hflag & Hvalid & _).
  unfold Expression.isValid. simpl.
  rewrite !prepIfNeeded_skip by congruence.
  rewrite Hvalid. split_and!; try done. apply getErrors_recordAll.
Qed.

(** X7.  [parseIfNeeded()] parses at most once.  Provided [parse()] sets
    [_parsed], the guard leaves a parsed object as it is, a second call
    after a first changes nothing, and any number [N >= 1] of calls in a
    row leaves the object of the first; recordings made in between do not
    reopen the stage. *)
Theorem X7_parseIfNeeded_once e rs (n : nat) :
  Expression.parse_sets_flag →
  (Expression._parsed e = true → Expression.parseIfNeeded e = e)
  ∧ Expression.parseIfNeeded (Expression.parseIfNeeded e)
    = Expression.parseIfNeeded e
  ∧ Nat.iter (S n) Expression.parseIfNeeded e = Expression.parseIfNeeded e
  ∧ Expression.parseIfNeeded
      (Expression.recordAll rs (Expression.parseIfNeeded e))
    = Expression.recordAll rs (Expression.parseIfNeeded e).
Proof.
  intros Hparse. split_and!.
  - apply parseIfNeeded_skip.
  - by apply parseIfNeeded_again.
  - by apply parseIfNeeded_iter.
  - apply parseIfNeeded_skip.
    destruct (recordAll_static rs (Expression.parseIfNeeded e))
      as (_ & _ & -> & _).
    by apply parseIfNeeded_parsed.
Qed.

End GuardProperties.

(** ** Declared types and caller storage of the variable references *)

Section VarRefProperties.
Context `{Externals}.

Lemma vector_eval_returns (v : ExprVectorVarRef.t) (result result' : list double) :
  ExprVectorVarRef.eval v result = Returned result' →
  (3 ≤ length result)%nat
  ∧ result'
    = Vec3d_index (ExprVectorVarRef.eval_node v None Vec3d_new) 0
      :: Vec3d_index (ExprVectorVarRef.eval_node v None Vec3d_new) 1
      :: Vec3d_index (ExprVectorVarRef.eval_node v None Vec3d_new) 2
      :: drop 3 result.
Proof.
  intros Heval. destruct (decide (length result < 3)%nat) as [Hshort|Hlong].
  - rewrite (vector_eval_short v result Hshort) in Heval. discriminate.
  - split; [lia|].
    destruct result as [|a [|b [|c rest]]]; simpl in Hlong; try lia.
    rewrite vector_eval_three in Heval. by injection Heval as <-.
Qed.

Lemma scalar_eval_empty (s : ExprScalarVarRef.t) :
  ExprScalarVarRef.eval s [] = OutOfBounds.
Proof.
  unfold ExprScalarVarRef.eval, for_int.
  change (Z.to_nat (1 - 0)) with 1%nat. cbn [for_steps].
  by rewrite (store_outside 0) by (simpl; lia).
Qed.

Lemma scalar_eval_returns (s : ExprScalarVarRef.t) (result result' : list double) :
  ExprScalarVarRef.eval s result = Returned result' →
  (1 ≤ length result)%nat
  ∧ result'
    = Vec3d_index (ExprScalarVarRef.eval_node s None Vec3d_new) 0
      :: drop 1 result.
Proof.
  intros Heval. destruct result as [|a rest].
  - rewrite scalar_eval_empty in Heval. discriminate.
  - split; [simpl; lia|].
    rewrite scalar_eval_one in Heval. by injection Heval as <-.
Qed.


(** X9.  The numeric adapters return exactly when the caller's storage is
    large enough: [ExprVectorVarRef::eval(double* result)] returns if and
    only if there are at least 3 cells, [ExprScalarVarRef::eval(double*
    result)] if and only if there is at least 1 (on empty storage it runs
    past the end).  When they return, the storage has the length it had
    and every cell from index 3 (from index 1) on is untouched; neither
    ever fails an assertion. *)
Theorem X9_eval_storage_bounds
    (v : ExprVectorVarRef.t) (s : ExprScalarVarRef.t) (result : list double) :
  ((∃ result', ExprVectorVarRef.eval v result = Returned result')
     ↔ (3 ≤ length result)%nat)
  ∧ ((∃ result', ExprScalarVarRef.eval s result = Returned result')
     ↔ (1 ≤ length result)%nat)
  ∧ (∀ result', ExprVectorVarRef.eval v result = Returned result' →
       length result' = length result
       ∧ ∀ i, (3 ≤ i)%nat → result' !! i = result !! i)
  ∧ (∀ result', ExprScalarVarRef.eval s result = Returned result' →
       length result' = length result
       ∧ ∀ i, (1 ≤ i)%nat → result' !! i = result !! i)
  ∧ ExprVectorVarRef.eval v result ≠ AssertionFailed
  ∧ ExprScalarVarRef.eval s result ≠ AssertionFailed.
Proof.
  split_and!.
  - split.
    + intros [result' Heval]. by apply vector_eval_returns in Heval as [? _].
    + intros Hlen.
      destruct result as [|a [|b [|c rest]]]; simpl in Hlen; try lia.
      eexists. apply vector_eval_three.
  - split.
    + intros [result' Heval]. by apply scalar_eval_returns in Heval as [? _].
    + intros Hlen. destruct result as [|a rest]; simpl in Hlen; try lia.
      eexists. apply scalar_eval_one.
  - intros result' [Hlen ->]%vector_eval_returns.
    destruct result as [|a [|b [|c rest]]]; simpl in Hlen; try lia.
    split; [done|]. intros [|[|[|i]]] Hi; try lia. done.
  - intros result' [Hlen ->]%scalar_eval_returns.
    destruct result as [|a rest]; simpl in Hlen; try lia.
    split; [done|]. intros [|i] Hi; try lia. done.
  - apply vector_eval_not_assert.
  - apply scalar_eval_not_assert.
Qed.

End VarRefProperties.

(** ** Unique names *)

Lemma Hex_value_digit (d : Z) : 0 ≤ d < 16 → Hex.value (Hex.digit d) = d.
Proof. intros Hrange. hex_cases d; reflexivity. Qed.


Lemma Hex_read_go (fuel : nat) :
  ∀ (v : Z) (acc : string),
    0 ≤ v < 16 ^ Z.of_nat fuel →
    Hex.read (Hex.go fuel v acc)
    = v * 16 ^ Z.of_nat (String.length acc) + Hex.read acc.
Proof.
  induction fuel as [|fuel IH]; intros v acc Hv.
  - simpl in *. lia.
  - rewrite Nat2Z.inj_succ, Z.pow_succ_r in Hv by lia.
    pose proof (Z.div_mod v 16 ltac:(lia)) as Hdm.
    pose proof (Z.mod_pos_bound v 16 ltac:(lia)) as Hmod.
    cbn [Hex.go]. case_decide as Hq.
    + cbn [Hex.read]. rewrite Hex_value_digit by lia.
      replace (v mod 16) with v by lia. done.
    + rewrite IH by (split; [apply Z.div_pos; lia
                            | apply Z.div_lt_upper_bound; lia]).
      cbn [Hex.read String.length].
      rewrite Hex_value_digit, Nat2Z.inj_succ, Z.pow_succ_r by lia. lia.
Qed.




Lemma Hex_read_uint64 (v : Z) : Hex.read (Hex.uint64 v) = v mod 2 ^ 64.
Proof.
  unfold Hex.uint64. rewrite Hex_read_go.
  - simpl. lia.
  - pose proof (Z.mod_pos_bound v (2 ^ 64) ltac:(lia)).
    change (16 ^ Z.of_nat 16) with (2 ^ 64). lia.
Qed.

(** X10.  Unique names can be read back: the text after the underscore of
    [getUniqueName()] is the address of the object in base 16, whose value
    is the address modulo [2^64].  Two objects get the same name exactly
    when their addresses agree modulo [2^64]; for addresses that fit 64
    bits, different objects get different names. *)
Theorem X10_getUniqueName_injective (this other : Z) :
  Expression.getUniqueName this = String "_" (Hex.uint64 this)
  ∧ Hex.read (Hex.uint64 this) = this mod 2 ^ 64
  ∧ (Expression.getUniqueName this = Expression.getUniqueName other
       ↔ this mod 2 ^ 64 = other mod 2 ^ 64)
  ∧ (0 ≤ this < 2 ^ 64 → 0 ≤ other < 2 ^ 64 →
     Expression.getUniqueName this = Expression.getUniqueName other →
     this = other).
Proof.
  assert (Hiff : Expression.getUniqueName this = Expression.getUniqueName other
                 ↔ this mod 2 ^ 64 = other mod 2 ^ 64).
  { change (String "_" (Hex.uint64 this) = String "_" (Hex.uint64 other)
            ↔ this mod 2 ^ 64 = other mod 2 ^ 64). split.
    - intros [= Heq]. by rewrite <- !Hex_read_uint64, Heq.
    - intros Heq. unfold Hex.uint64. by rewrite Heq. }
  split_and!; [done | apply Hex_read_uint64 | exact Hiff |].
  intros Hthis Hother Heq%Hiff. by rewrite !Z.mod_small in Heq.
Qed.


(** ** The native evaluation context *)

Section ContextProperties.
Context {T : Type} (indeterminate : nat → T).
Implicit Types (c : LLVMEvaluationContext.t T)
  (f : LLVMEvaluationContext.FunctionPtr T) (cells : list T).

Lemma call_ready (NDEBUG : bool) f cells :
  LLVMEvaluationContext.call NDEBUG
    (LLVMEvaluationContext.mk (Some f) (Some cells))
  = LLVMEvaluationContext.Done
      (LLVMEvaluationContext.mk (Some f) (Some (f cells)), f cells).
Proof. by destruct NDEBUG. Qed.

Lemma call_times_ready (NDEBUG : bool) (n : nat) f :
  ∀ cells,
    LLVMEvaluationContext.call_times NDEBUG n
      (LLVMEvaluationContext.mk (Some f) (Some cells))
    = LLVMEvaluationContext.Done
        (LLVMEvaluationContext.mk (Some f) (Some (Nat.iter n f cells)),
         (λ k, Nat.iter k f cells) <$> seq 1 n).
Proof.
  induction n as [|n IH]; intros cells; [done|].
  cbn [LLVMEvaluationContext.call_times]. rewrite call_ready.
  cbn [mbind LLVMEvaluationContext.Effect_bind]. rewrite IH.
  cbn [mbind LLVMEvaluationContext.Effect_bind].
  rewrite <- Nat.iter_succ_r. do 3 f_equal.
  cbn [seq fmap list_fmap]. f_equal.
  rewrite <- (fmap_S_seq 1), <- list_fmap_compose.
  apply list_fmap_ext. intros i k _. simpl. by rewrite <- Nat.iter_succ_r.
Qed.




Lemma init_empty (fp : option (LLVMEvaluationContext.FunctionPtr T))
    (dim : Z) c :
  LLVMEvaluationContext.resultData c = None → 0 ≤ dim →
  LLVMEvaluationContext.init indeterminate fp dim c
  = LLVMEvaluationContext.Done
      (LLVMEvaluationContext.mk fp
         (Some (indeterminate <$> seq 0 (Z.to_nat dim)))).
Proof.
  intros Hnone Hdim.
  unfold LLVMEvaluationContext.init, LLVMEvaluationContext.new_array.
  destruct c as [fp0 cells]. simpl in Hnone. subst cells.
  cbn. by rewrite decide_True.
Qed.


(** X13.  After [init(fp, dim)] on a context that holds no storage, with a
    non-null [fp] and [dim >= 0], the context holds [fp] and [dim] fresh
    cells, and every one of [n] evaluations in a row returns: the k-th
    answers the function applied k times to the fresh cells, since the
    storage is reused from call to call and never reallocated. *)
Theorem X13_init_then_evaluate (NDEBUG : bool) (n : nat) c f (dim : Z) :
  LLVMEvaluationContext.resultData c = None →
  0 ≤ dim →
  let cells := indeterminate <$> seq 0 (Z.to_nat dim) in
  let ready := LLVMEvaluationContext.mk (Some f) (Some cells) in
  LLVMEvaluationContext.init indeterminate (Some f) dim c
  = LLVMEvaluationContext.Done ready
  ∧ Z.of_nat (length cells) = dim
  ∧ LLVMEvaluationContext.call_times NDEBUG n ready
    = LLVMEvaluationContext.Done
        (LLVMEvaluationContext.mk (Some f) (Some (Nat.iter n f cells)),
         (λ k, Nat.iter k f cells) <$> seq 1 n)
  ∧ ((∀ l, length (f l) = length l) →
     ∀ k, Z.of_nat (length (Nat.iter k f cells)) = dim).
Proof.
  intros Hnone Hdim cells ready. subst ready.
  assert (Hlen : Z.of_nat (length cells) = dim).
  { subst cells. rewrite length_fmap, length_seq. lia. }
  split_and!.
  - by apply init_empty.
  - done.
  - apply call_times_ready.
  - intros Hf k. induction k as [|k IH]; [done|].
    simpl. by rewrite Hf.
Qed.


End ContextProperties.

(** ** Instances of the properties above *)

(** X2 on a prepared, valid object: an error recorded late is listed, and
    [isValid()] still answers true. *)
Lemma X2_isValid_is_cached_witness :
  let e := demo_prep (demo_expression "1 + 2") in
  let late := [Expression.RecError "late" 0 1] in
  (@Expression.isValid demo_externals demo_outofline
     (Expression.recordAll late e)).2 = true
  ∧ Expression.getErrors
      (@Expression.isValid demo_externals demo_outofline
         (Expression.recordAll late e)).1
    = [Expression.mkError "late" 0 1].
Proof.
  intros e late.
  destruct (@X2_isValid_is_cached demo_externals demo_outofline e late
              eq_refl) as (_ & Hvalid & Herrs).
  split.
  - rewrite Hvalid. reflexivity.
  - rewrite Herrs. reflexivity.
Defined.

(** X4 on a run with one thread-unsafe call among other recordings. *)
Lemma X4_thread_unsafety_sticky_witness :
  let rs := [Expression.RecVar "x"; Expression.RecThreadUnsafe "printf";
             Expression.RecError "unknown" 2 3] in
  "printf" ∈ Expression.getThreadUnsafeFunctionCalls
               (Expression.recordAll rs (demo_expression "printf($x)"))
  ∧ Expression.isThreadSafe
      (Expression.recordAll rs (demo_expression "printf($x)")) = false.
Proof.
  intros rs.
  destruct (@X4_thread_unsafety_sticky demo_externals rs
              (demo_expression "printf($x)")) as (_ & _ & Hin).
  apply Hin. subst rs. repeat constructor.
Defined.

(** X5 on a comment of length 0 at offset 4. *)
Lemma X5_comment_span_shape_witness :
  ∃ span,
    last (Expression.getComments
            (Expression.addComment 4 0 (demo_expression "1+1 ")))
    = Some span
    ∧ span.1 = 4 ∧ span.2 - span.1 + 1 = 0
    ∧ (span.1 ≤ span.2 ↔ 1 ≤ 0) ∧ (0 = 0 → span.2 = 4 - 1).
Proof.
  apply (@X5_comment_span_shape demo_externals (demo_expression "1+1 ") 4 0).
  unfold Expression.no_overflow, CInt.in_range, CInt.INT_MIN, CInt.INT_MAX.
  simpl. lia.
Defined.

(** X6 on an error and a comment. *)
Lemma X6_recordings_commute_witness :
  let e := demo_expression "# c" in
  Expression.addComment 0 3 (Expression.addError "bad" 0 1 e)
  = Expression.addError "bad" 0 1 (Expression.addComment 0 3 e).
Proof.
  intros e.
  destruct (@X6_recordings_commute demo_externals e
              (Expression.RecError "bad" 0 1) (Expression.RecComment 0 3)
              "a" "b" 0 0 0 0 "f" "g") as (Hcomm & _).
  apply Hcomm. left. discriminate.
Defined.

(** X7 on the malformed text: three guarded parses record one error. *)
Lemma X7_parseIfNeeded_once_witness :
  Expression.getErrors
    (Nat.iter 3 (@Expression.parseIfNeeded demo_externals demo_outofline)
       (demo_expression "1 +"))
  = [Expression.mkError "syntax error" 3 3].
Proof.
  destruct (@X7_parseIfNeeded_once demo_externals demo_outofline
              (demo_expression "1 +") [] 2 demo_parse_sets_flag)
    as (_ & _ & Hiter & _).
  rewrite Hiter. reflexivity.
Defined.


(** X9 on storage of three cells and of no cell. *)
Lemma X9_eval_storage_bounds_witness :
  (∃ result', ExprVectorVarRef.eval (demo_vector 3) [1; 2; 3]
              = Returned result')
  ∧ ¬ (∃ result', ExprScalarVarRef.eval demo_scalar [] = Returned result').
Proof.
  destruct (@X9_eval_storage_bounds demo_externals (demo_vector 3) demo_scalar
              [1; 2; 3]) as ([_ Hvec] & _).
  destruct (@X9_eval_storage_bounds demo_externals (demo_vector 3) demo_scalar
              []) as (_ & [Hsca _] & _).
  split.
  - apply Hvec. simpl. lia.
  - intros Hret. apply Hsca in Hret. simpl in Hret. lia.
Defined.

(** X10 on two addresses. *)
Lemma X10_getUniqueName_injective_witness :
  Expression.getUniqueName 4096 ≠ Expression.getUniqueName 8192.
Proof.
  destruct (X10_getUniqueName_injective 4096 8192) as (_ & _ & _ & Hinj).
  intros Heq. apply Hinj in Heq; lia.
Defined.



(** X13 on a function that adds one to every cell, run twice on three
    cells that start at zero. *)
Lemma X13_init_then_evaluate_witness :
  LLVMEvaluationContext.call_times false 2
    (LLVMEvaluationContext.mk (Some (fmap (Z.add 1))) (Some [0; 0; 0]))
  = LLVMEvaluationContext.Done
      (LLVMEvaluationContext.mk (Some (fmap (Z.add 1))) (Some [2; 2; 2]),
       [[1; 1; 1]; [2; 2; 2]]).
Proof.
  destruct (@X13_init_then_evaluate Z (λ _, 0) false 2
              LLVMEvaluationContext.new (fmap (Z.add 1)) 3
              eq_refl ltac:(lia)) as (_ & _ & Hcalls & _).
  exact Hcalls.
Defined.

